(** * Multi-Prompt-Agent: schema model, capability binder and dispatcher

    A shallow embedding of
      - [src/database/models.py]      (pydantic models and their validators),
      - [src/database/connection.py]  ([DatabaseManager.get_customer]),
      - [src/agents/agent_factory.py] ([agent_factory]),
      - [src/agents/multi_agent.py]   ([entrypoint]),
    followed by the properties of the handoff graph that are checked
    against them.

    Conventions.  A Python [str] is a [string] whose characters are the
    code points U+0000..U+00FF.  A Python [dict] with a fixed set of keys
    is a record; the dict that grows by assignment ([agent_map]) is a
    [gmap].  A model instance and the [dict] it is built from have
    different types, [X.t] and a record named after the variable the
    source binds the dict to ([edge_spec], [agent_def], [customer]). *)

From Stdlib Require Import String Ascii List Bool Arith ZArith Lia.
From stdpp Require Import base gmap strings list.

Import ListNotations.
Local Open Scope string_scope.
Local Open Scope list_scope.

(* ===================================================================== *)
(** ** Python text                                                        *)
(* ===================================================================== *)

Module Text.

Definition code (c : ascii) : nat := nat_of_ascii c.

Definition between (lo hi : nat) (c : ascii) : bool :=
  (lo <=? code c)%nat && (code c <=? hi)%nat.

(** The character classes of the three [re.match] patterns. *)
Definition is_upper (c : ascii) : bool := between 65 90 c.    (* A-Z *)
Definition is_lower (c : ascii) : bool := between 97 122 c.   (* a-z *)
Definition is_digit (c : ascii) : bool := between 48 57 c.    (* 0-9 *)
Definition is_alpha (c : ascii) : bool := is_upper c || is_lower c.
Definition is_underscore (c : ascii) : bool := (code c =? 95)%nat.
Definition is_hyphen (c : ascii) : bool := (code c =? 45)%nat.
Definition is_word (c : ascii) : bool :=
  is_alpha c || is_digit c || is_underscore c.

Fixpoint all (p : ascii -> bool) (s : string) : bool :=
  match s with
  | EmptyString => true
  | String c r => p c && all p r
  end.

Fixpoint map (f : ascii -> ascii) (s : string) : string :=
  match s with
  | EmptyString => EmptyString
  | String c r => String (f c) (map f r)
  end.

(** [str.lower()] on code points below 256: A-Z, and the Latin-1
    capitals U+00C0..U+00DE other than the multiplication sign U+00D7,
    move up by 32; every other code point is left alone. *)
Definition lower_char (c : ascii) : ascii :=
  if is_upper c || (between 192 222 c && negb (code c =? 215)%nat)
  then ascii_of_nat (code c + 32)
  else c.

Definition lower (s : string) : string := map lower_char s.

(** [str.isspace()] on code points below 256. *)
Definition isspace (c : ascii) : bool :=
  between 9 13 c || between 28 32 c
  || (code c =? 133)%nat || (code c =? 160)%nat.

Fixpoint lstrip (s : string) : string :=
  match s with
  | EmptyString => EmptyString
  | String c r => if isspace c then lstrip r else s
  end.

Fixpoint rstrip (s : string) : string :=
  match s with
  | EmptyString => EmptyString
  | String c r =>
      match rstrip r with
      | EmptyString => if isspace c then EmptyString else String c EmptyString
      | r' => String c r'
      end
  end.

(** [str.strip()] *)
Definition strip (s : string) : string := rstrip (lstrip s).

Fixpoint startswith (p s : string) : bool :=
  match p, s with
  | EmptyString, _ => true
  | String a p', String b s' => Ascii.eqb a b && startswith p' s'
  | String _ _, EmptyString => false
  end.

(** [p in s] *)
Fixpoint contains (p s : string) : bool :=
  startswith p s ||
  match s with
  | EmptyString => false
  | String _ r => contains p r
  end.

(** What is left of [s] when its last character is a line feed. *)
Fixpoint chop_newline (s : string) : option string :=
  match s with
  | EmptyString => None
  | String c EmptyString =>
      if (code c =? 10)%nat then Some EmptyString else None
  | String c r =>
      match chop_newline r with
      | Some r' => Some (String c r')
      | None => None
      end
  end.

(** [re.match(r'^...$', s)] for a pattern body that cannot consume a
    line feed: Python's [$] matches at the end of the string and also
    just before a line feed that ends the string. *)
Definition re_match_dollar (body : string -> bool) (s : string) : bool :=
  body s ||
  match chop_newline s with
  | Some s' => body s'
  | None => false
  end.

(** [[a-zA-Z_][a-zA-Z0-9_]*] *)
Definition tool_ident (s : string) : bool :=
  match s with
  | EmptyString => false
  | String c r => (is_alpha c || is_underscore c) && all is_word r
  end.

(** [[a-zA-Z][a-zA-Z0-9_]*] *)
Definition agent_ident (s : string) : bool :=
  match s with
  | EmptyString => false
  | String c r => is_alpha c && all is_word r
  end.

(** [[a-zA-Z0-9_-]+] *)
Definition id_chars (s : string) : bool :=
  match s with
  | EmptyString => false
  | String _ _ => all (fun c => is_alpha c || is_digit c || is_underscore c || is_hyphen c) s
  end.

End Text.

(* ===================================================================== *)
(** ** The validation results of pydantic                                 *)
(* ===================================================================== *)

Module Pydantic.

(** The [type] of a line of a [ValidationError].  A [ValueError] raised
    by a field validator of the source becomes [value_error] with the
    message of the exception. *)
Inductive ErrorType :=
| string_too_short (min_length : nat)
| string_too_long (max_length : nat)
| string_pattern_mismatch (pattern : string)
| too_short (min_length : nat)
| too_long (max_length : nat)
| value_error (msg : string).

Inductive LocItem :=
| Key (k : string)
| Index (i : nat).

Record ErrorDetails := { loc : list LocItem; type : ErrorType }.

(** A model instance, or the lines of the [ValidationError] raised. *)
Inductive validated (A : Type) :=
| Valid (a : A)
| Invalid (errors : list ErrorDetails).
Arguments Valid {A} a.
Arguments Invalid {A} errors.

Definition errors_of {A} (r : validated A) : list ErrorDetails :=
  match r with
  | Valid _ => []
  | Invalid es => es
  end.

Definition is_valid {A} (r : validated A) : bool :=
  match r with
  | Valid _ => true
  | Invalid _ => false
  end.

Definition fail {A} (t : ErrorType) : validated A :=
  Invalid [ {| loc := []; type := t |} ].

Definition bind {A B} (r : validated A) (k : A -> validated B) : validated B :=
  match r with
  | Valid a => k a
  | Invalid es => Invalid es
  end.

(** Errors found below a field or a list index carry it in front of
    their location. *)
Definition under {A} (l : LocItem) (r : validated A) : validated A :=
  match r with
  | Valid a => Valid a
  | Invalid es =>
      Invalid (List.map (fun e => {| loc := l :: loc e; type := type e |}) es)
  end.

(** [str] with [Field(min_length=lo, max_length=hi)] *)
Definition str_length (lo hi : nat) (v : string) : validated string :=
  if (String.length v <? lo)%nat then fail (string_too_short lo)
  else if (hi <? String.length v)%nat then fail (string_too_long hi)
  else Valid v.

(** A list field: every item is validated, the errors of all items are
    collected under their index; the validated list exists only when
    no item failed. *)
Fixpoint list_items {A B} (item : A -> validated B) (i : nat) (l : list A)
  : validated (list B) :=
  match l with
  | [] => Valid []
  | x :: r =>
      match under (Index i) (item x), list_items item (S i) r with
      | Valid b, Valid bs => Valid (b :: bs)
      | rx, rr => Invalid (errors_of rx ++ errors_of rr)
      end
  end.

(** [List[...]] with [Field(min_length=lo, max_length=hi)] *)
Definition list_length {B} (lo hi : nat) (l : list B) : validated (list B) :=
  if (List.length l <? lo)%nat then fail (too_short lo)
  else if (hi <? List.length l)%nat then fail (too_long hi)
  else Valid l.

End Pydantic.

(* ===================================================================== *)
(** ** The stored documents                                               *)
(* ===================================================================== *)

#[local] Set Warnings "-register-all,-abstract-large-number".

(** A [tools] entry is an arbitrary [Dict]; nothing in the source looks
    inside one. *)
Inductive JSON :=
| JNull
| JBool (b : bool)
| JNum (z : Z)
| JStr (s : string)
| JArr (items : list JSON)
| JObj (members : list (string * JSON)).

Definition Dict : Type := list (string * JSON).

(** One entry of [agent_def["edges"]]. *)
Record edge_spec := {
  es_name : string;
  es_description : string;
  es_action : string;
  es_target_agent : string
}.

(** One entry of [customer["agents"]]. *)
Record agent_def := {
  ad_name : string;
  ad_instructions : string;
  ad_on_enter_prompt : string;
  ad_tools : list Dict;
  ad_edges : list edge_spec
}.

(** A document of the [schemas] collection, and the keyword arguments
    that [CustomerSchema] is constructed from. *)
Record customer := {
  doc_customer_id : string;
  doc_name : string;
  doc_description : string;
  doc_agents : list agent_def
}.

(* ===================================================================== *)
(** ** [src/database/models.py]                                           *)
(* ===================================================================== *)

Module AgentEdge.
Import Pydantic.

Record t := {
  name : string;
  description : string;
  action : string;
  target_agent : string
}.

Definition validate_name (v : string) : validated string :=
  if negb (Text.re_match_dollar Text.tool_ident v)
  then fail (value_error "Tool name must be a valid identifier")
  else Valid v.

(** [pattern="^(handoff|action)$"]: the pattern of a [Field] is matched
    by the validation core, where [$] is the end of the text only. *)
Definition action_pattern (v : string) : validated string :=
  if String.eqb v "handoff" || String.eqb v "action" then Valid v
  else fail (string_pattern_mismatch "^(handoff|action)$").

(** The constructor call of [AgentEdge] on the keys of an [edge_spec]. *)
Definition construct (d : edge_spec) : validated t :=
  let f_name := under (Key "name")
                  (bind (str_length 1 100 (es_name d)) validate_name) in
  let f_description := under (Key "description")
                  (str_length 1 500 (es_description d)) in
  let f_action := under (Key "action") (action_pattern (es_action d)) in
  let f_target := under (Key "target_agent")
                  (str_length 1 100 (es_target_agent d)) in
  match f_name, f_description, f_action, f_target with
  | Valid n, Valid ds, Valid a, Valid tg =>
      Valid {| name := n; description := ds; action := a; target_agent := tg |}
  | _, _, _, _ =>
      Invalid (errors_of f_name ++ errors_of f_description
               ++ errors_of f_action ++ errors_of f_target)
  end.

(** [edge.dict()] *)
Definition dict (e : t) : edge_spec :=
  {| es_name := name e; es_description := description e;
     es_action := action e; es_target_agent := target_agent e |}.
End AgentEdge.

Module AgentConfig.
Import Pydantic.

Record t := {
  name : string;
  instructions : string;
  on_enter_prompt : string;
  tools : list Dict;
  edges : list AgentEdge.t
}.

Definition validate_agent_name (v : string) : validated string :=
  if negb (Text.re_match_dollar Text.agent_ident v)
  then fail (value_error
               "Agent name must be a valid identifier starting with a letter")
  else Valid v.

Definition prohibited_keywords : list string :=
  ["execute"; "eval"; "__import__"; "subprocess"].

Definition validate_instructions (v : string) : validated string :=
  if existsb (fun keyword => Text.contains keyword (Text.lower v))
             prohibited_keywords
  then fail (value_error "Instructions contain prohibited keywords")
  else Valid (Text.strip v).

(** The constructor call of [AgentConfig] on the keys of an [agent_def]. *)
Definition construct (d : agent_def) : validated t :=
  let f_name := under (Key "name")
                  (bind (str_length 1 100 (ad_name d)) validate_agent_name) in
  let f_instructions := under (Key "instructions")
                  (bind (str_length 10 10000 (ad_instructions d))
                        validate_instructions) in
  let f_prompt := under (Key "on_enter_prompt")
                  (str_length 1 1000 (ad_on_enter_prompt d)) in
  let f_edges := under (Key "edges")
                  (list_items AgentEdge.construct 0 (ad_edges d)) in
  match f_name, f_instructions, f_prompt, f_edges with
  | Valid n, Valid i, Valid p, Valid es =>
      Valid {| name := n; instructions := i; on_enter_prompt := p;
               tools := ad_tools d; edges := es |}
  | _, _, _, _ =>
      Invalid (errors_of f_name ++ errors_of f_instructions
               ++ errors_of f_prompt ++ errors_of f_edges)
  end.

(** [agent.dict()] *)
Definition dict (a : t) : agent_def :=
  {| ad_name := name a; ad_instructions := instructions a;
     ad_on_enter_prompt := on_enter_prompt a; ad_tools := tools a;
     ad_edges := List.map AgentEdge.dict (edges a) |}.
End AgentConfig.

Module CustomerSchema.
Import Pydantic.

Record t := {
  customer_id : string;
  name : string;
  description : string;
  agents : list AgentConfig.t
}.

Definition validate_customer_id (v : string) : validated string :=
  if negb (Text.re_match_dollar Text.id_chars v)
  then fail (value_error
    "Customer ID can only contain letters, numbers, underscores, and hyphens")
  else Valid (Text.lower v).

Definition validate_agent_uniqueness (v : list AgentConfig.t)
  : validated (list AgentConfig.t) :=
  let names := List.map AgentConfig.name v in
  if negb (List.length names =? size (list_to_set names : gset string))%nat
  then fail (value_error "Agent names must be unique within a customer")
  else Valid v.

(** The inner loop of [validate_edge_targets]: the target of the first
    edge that names no agent, if there is one. *)
Fixpoint dangling_edge (agent_names : gset string) (es : list AgentEdge.t)
  : option string :=
  match es with
  | [] => None
  | edge :: rest =>
      if bool_decide (AgentEdge.target_agent edge ∉ agent_names)
      then Some (AgentEdge.target_agent edge)
      else dangling_edge agent_names rest
  end.

(** The outer loop. *)
Fixpoint dangling_target (agent_names : gset string) (v : list AgentConfig.t)
  : option string :=
  match v with
  | [] => None
  | agent :: rest =>
      match dangling_edge agent_names (AgentConfig.edges agent) with
      | Some tg => Some tg
      | None => dangling_target agent_names rest
      end
  end.

(** The double quote, U+0022. *)
Definition dquote : ascii := ascii_of_nat 34.

Definition edge_target_message (tg : string) : string :=
  "Edge target " ++ String dquote (tg ++ String dquote " not found in agent list").

Definition validate_edge_targets (v : list AgentConfig.t)
  : validated (list AgentConfig.t) :=
  let agent_names : gset string := list_to_set (List.map AgentConfig.name v) in
  match dangling_target agent_names v with
  | Some tg => fail (value_error (edge_target_message tg))
  | None => Valid v
  end.

(** The [agents] field: the items, then the bounds of [Field], then
    the two field validators in the order the class declares them. *)
Definition validate_agents (l : list agent_def) : validated (list AgentConfig.t) :=
  bind (list_items AgentConfig.construct 0 l) (fun v =>
  bind (list_length 1 20 v) (fun v =>
  bind (validate_agent_uniqueness v) validate_edge_targets)).

(** The constructor call of [CustomerSchema] on the keys of [customer_data]. *)
Definition construct (d : customer) : validated t :=
  let f_id := under (Key "customer_id")
                (bind (str_length 1 50 (doc_customer_id d)) validate_customer_id) in
  let f_name := under (Key "name") (str_length 1 200 (doc_name d)) in
  let f_description := under (Key "description")
                (str_length 1 1000 (doc_description d)) in
  let f_agents := under (Key "agents") (validate_agents (doc_agents d)) in
  match f_id, f_name, f_description, f_agents with
  | Valid i, Valid n, Valid ds, Valid ags =>
      Valid {| customer_id := i; name := n; description := ds; agents := ags |}
  | _, _, _, _ =>
      Invalid (errors_of f_id ++ errors_of f_name
               ++ errors_of f_description ++ errors_of f_agents)
  end.

(** [customer.dict()] *)
Definition dict (c : t) : customer :=
  {| doc_customer_id := customer_id c; doc_name := name c;
     doc_description := description c;
     doc_agents := List.map AgentConfig.dict (agents c) |}.
End CustomerSchema.

(* ===================================================================== *)
(** ** [src/agents/agent_factory.py]                                      *)
(* ===================================================================== *)

(** The [raw_schema] of a handoff tool; its [type] is always
    ["function"] and its [parameters] the empty object. *)
Record raw_schema := {
  rs_name : string;
  rs_description : string
}.

(** An entry of a [tools] list: either [function_tool(handler,
    raw_schema=schema)], where the closure [handler] is given by the
    target name it captured, or a bare [str]. *)
Inductive Tool :=
| function_tool (_target : string) (schema : raw_schema)
| str_tool (s : string).

(** A class made by [make_agent_class]. *)
Record AgentClass := {
  cls_name : string;
  cls_instructions : string;
  cls_on_enter_prompt : string;
  cls_tools : list Tool
}.

(** An instance [cls()]: [__init__] hands the instructions and the tools
    to [Agent] and keeps the prompt.  Every call of [new] stands for a
    fresh object. *)
Record Agent := {
  class_of : AgentClass;
  instructions : string;
  tools : list Tool;
  _on_enter_prompt : string
}.

Definition new (cls : AgentClass) : Agent :=
  {| class_of := cls;
     instructions := cls_instructions cls;
     tools := cls_tools cls;
     _on_enter_prompt := cls_on_enter_prompt cls |}.

(** What a [handler] returns: an agent, which makes the session hand
    over to it, or a text for the caller. *)
Inductive handler_result :=
| handoff (new_agent : Agent)
| text (s : string).

(** The body of [handler].  [agent_map] is the dict the closure holds a
    reference to, in the state it has when the handler is called; a slot
    holds [None] until the second pass fills it.  The arguments of the
    call are not read, and the log line is left out. *)
Definition handler (_target : string) (agent_map : gmap string (option AgentClass))
  : handler_result :=
  match agent_map !! _target with
  | None | Some None => text ("Error: Target agent " ++ _target ++ " not found")
  | Some (Some cls) => handoff (new cls)
  end.

Definition call_tool (t : Tool) (agent_map : gmap string (option AgentClass))
  : option handler_result :=
  match t with
  | function_tool _target _ => Some (handler _target agent_map)
  | str_tool _ => None       (* a [str] is not callable *)
  end.

(** [create_handoff_tool()] for one [edge_spec]; the function has no
    path that returns [None]. *)
Definition create_handoff_tool (e : edge_spec) : option Tool :=
  if String.eqb (es_action e) "handoff"
     && negb (String.eqb (es_target_agent e) "")
  then Some (function_tool (es_target_agent e)
               {| rs_name := es_name e;
                  rs_description :=
                    es_description e ++ ". Will handoff to: " ++ es_target_agent e |})
  else Some (str_tool "I can't do that right now.").

(** The loop over [agent_def.get("edges", [])]. *)
Definition handoff_tools (d : agent_def) : list Tool :=
  foldl (fun tools edge =>
           match create_handoff_tool edge with
           | Some tool => tools ++ [tool]
           | None => tools
           end) [] (ad_edges d).

Definition make_agent_class (d : agent_def) (tools : list Tool) : AgentClass :=
  {| cls_name := ad_name d;
     cls_instructions := ad_instructions d;
     cls_on_enter_prompt := ad_on_enter_prompt d;
     cls_tools := tools |}.

(** First pass: an empty slot for every agent name. *)
Definition first_pass (agent_list : list agent_def)
  : gmap string (option AgentClass) :=
  foldl (fun agent_map d => <[ad_name d := None]> agent_map) ∅ agent_list.

(** Second pass: each slot receives its class. *)
Definition second_pass (agent_list : list agent_def)
    (agent_map : gmap string (option AgentClass))
  : gmap string (option AgentClass) :=
  foldl (fun agent_map d =>
           <[ad_name d := Some (make_agent_class d (handoff_tools d))]> agent_map)
        agent_map agent_list.

Definition agent_factory (agent_list : list agent_def)
  : gmap string (option AgentClass) :=
  second_pass agent_list (first_pass agent_list).

(* ===================================================================== *)
(** ** [src/database/connection.py]                                       *)
(* ===================================================================== *)

Inductive exn :=
| ConnectionError
| KeyError (key : string)
| IndexError
| TypeError.

(** The outcome of a call that may raise. *)
Inductive outcome (A : Type) :=
| Return (a : A)
| Raise (e : exn).
Arguments Return {A} a.
Arguments Raise {A} e.

(** The [schemas] collection as [get_customer] uses it: [find_one] on a
    [customer_id] filter answers with a document, with nothing, or
    fails inside the driver. *)
Record Collection := {
  find_one : string -> outcome (option customer)
}.

(** A collection that holds the documents [docs] and never fails: the
    first document whose [customer_id] is the requested one. *)
Definition stored (docs : list customer) : Collection :=
  {| find_one := fun customer_id =>
       Return (List.find (fun d => String.eqb (doc_customer_id d) customer_id) docs) |}.

(** [DatabaseManager.get_customer]; [collection] is [self.collection].
    The [except Exception] clause turns every failure inside the [try]
    into the empty list. *)
Definition get_customer (collection : option Collection) (customer_id : string)
  : outcome (list agent_def) :=
  match collection with
  | None => Raise ConnectionError
  | Some c =>
      match find_one c customer_id with
      | Return (Some customer) => Return (doc_agents customer)
      | Return None =>
          match find_one c "customer_1" with
          | Return (Some default_customer) => Return (doc_agents default_customer)
          | Return None => Return []
          | Raise _ => Return []
          end
      | Raise _ => Return []
      end
  end.

(* ===================================================================== *)
(** ** [src/agents/multi_agent.py]                                        *)
(* ===================================================================== *)

(** What [entrypoint] depends on, once [init_database] has returned:
    whether [redis_client.ping()] goes through, the hash stored under
    the session key, and the collection of [db_manager]. *)
Record JobContext := {
  redis_ping : bool;
  command : gmap string string;
  collection : option Collection
}.

(** How a run of [entrypoint] ends: [session.start] was reached with an
    initial agent, the function returned without a session, or an
    exception left it.  The test [if command:] holds whenever it is
    reached, since [command] then has the key ["customer_id"]. *)
Inductive run :=
| started (initial_agent : Agent)
| returned
| raised (e : exn).

Definition entrypoint (ctx : JobContext) : run :=
  if negb (redis_ping ctx) then returned
  else
    match command ctx !! "customer_id" with
    | None => raised (KeyError "customer_id")
    | Some customer_id =>
        match get_customer (collection ctx) customer_id with
        | Raise e => raised e
        | Return agent_schema =>
            match agent_schema with
            | [] => raised IndexError                 (* agent_schema[0] *)
            | first :: _ =>
                let first_agent := ad_name first in
                let agent_classes := agent_factory agent_schema in
                match agent_classes !! first_agent with
                | None => raised (KeyError first_agent)
                | Some None => raised TypeError       (* None() *)
                | Some (Some cls) =>
                    let initial_agent := new cls in
                    match command ctx !! "action" with
                    | None => raised (KeyError "action")
                    | Some action =>
                        if String.eqb action "start_session"
                        then started initial_agent
                        else returned
                    end
                end
            end
        end
    end.

(* ===================================================================== *)
(** ** Vocabulary of the statements                                       *)
(* ===================================================================== *)



(** Two different positions of a list carry the same key. *)
Definition repeats {A} (key : A -> string) (l : list A) : Prop :=
  ∃ i j x y, i ≠ j ∧ l !! i = Some x ∧ l !! j = Some y ∧ key x = key y.

(** The text of a validated identifier: within 1..100 characters and
    accepted by the pattern of tool names. *)
Definition valid_tool_name (s : string) : Prop :=
  (1 <= String.length s <= 100)%nat
  ∧ Text.re_match_dollar Text.tool_ident s = true.

(** A text that is empty or begins with a character that is no blank. *)
Definition lstripped (s : string) : Prop :=
  match s with
  | EmptyString => True
  | String c _ => Text.isspace c = false
  end.

(** A callable tool, called while the table is [agent_map], hands over
    to a new instance of the class that [agent_map] stores under the
    target name of the tool. *)
Definition resolves (agent_map : gmap string (option AgentClass)) (t : Tool) : Prop :=
  match t with
  | function_tool _target _ =>
      ∃ cls, agent_map !! _target = Some (Some cls)
             ∧ cls_name cls = _target
             ∧ call_tool t agent_map = Some (handoff (new cls))
  | str_tool _ => True
  end.

(* ===================================================================== *)
(** ** Sample graphs                                                      *)
(* ===================================================================== *)

Module Sample.

Definition handoff_edge (n tg : string) : edge_spec :=
  {| es_name := n; es_description := "Transfer the caller";
     es_action := "handoff"; es_target_agent := tg |}.

Definition refund : edge_spec :=
  {| es_name := "refund"; es_description := "Issue a refund";
     es_action := "action"; es_target_agent := "Billing" |}.

Definition greeter : agent_def :=
  {| ad_name := "Greeter";
     ad_instructions := "Welcome the caller warmly.";
     ad_on_enter_prompt := "Hello!";
     ad_tools := [];
     ad_edges := [handoff_edge "to_billing" "Billing"] |}.

Definition billing : agent_def :=
  {| ad_name := "Billing";
     ad_instructions := "Answer billing questions.";
     ad_on_enter_prompt := "Billing here.";
     ad_tools := [];
     ad_edges := [handoff_edge "to_greeter" "Greeter"; refund] |}.

(** Two agents that hand over to each other. *)
Definition acme : customer :=
  {| doc_customer_id := "Acme-01"; doc_name := "Acme";
     doc_description := "Acme support line";
     doc_agents := [greeter; billing] |}.

Definition greeter_model : AgentConfig.t :=
  {| AgentConfig.name := "Greeter";
     AgentConfig.instructions := "Welcome the caller warmly.";
     AgentConfig.on_enter_prompt := "Hello!";
     AgentConfig.tools := [];
     AgentConfig.edges :=
       [ {| AgentEdge.name := "to_billing";
            AgentEdge.description := "Transfer the caller";
            AgentEdge.action := "handoff";
            AgentEdge.target_agent := "Billing" |} ] |}.

Definition billing_model : AgentConfig.t :=
  {| AgentConfig.name := "Billing";
     AgentConfig.instructions := "Answer billing questions.";
     AgentConfig.on_enter_prompt := "Billing here.";
     AgentConfig.tools := [];
     AgentConfig.edges :=
       [ {| AgentEdge.name := "to_greeter";
            AgentEdge.description := "Transfer the caller";
            AgentEdge.action := "handoff";
            AgentEdge.target_agent := "Greeter" |};
         {| AgentEdge.name := "refund";
            AgentEdge.description := "Issue a refund";
            AgentEdge.action := "action";
            AgentEdge.target_agent := "Billing" |} ] |}.

Definition acme_graph : CustomerSchema.t :=
  {| CustomerSchema.customer_id := "acme-01";
     CustomerSchema.name := "Acme";
     CustomerSchema.description := "Acme support line";
     CustomerSchema.agents := [greeter_model; billing_model] |}.

(** The greeter alone: its edge points at an agent that is missing. *)
Definition dangling : customer :=
  {| doc_customer_id := "acme-02"; doc_name := "Acme";
     doc_description := "Acme support line";
     doc_agents := [greeter] |}.

(** A second agent that calls itself the greeter and has no edges. *)
Definition greeter_again : agent_def :=
  {| ad_name := "Greeter";
     ad_instructions := "Say goodbye to the caller.";
     ad_on_enter_prompt := "Goodbye!";
     ad_tools := [];
     ad_edges := [] |}.

(** Two greeters: a repeated name and, in the first, a missing target. *)
Definition repeated_and_dangling : customer :=
  {| doc_customer_id := "acme-03"; doc_name := "Acme";
     doc_description := "Acme support line";
     doc_agents := [greeter; greeter_again] |}.



(** Instructions of ten characters, eight of them trailing blanks. *)
Definition padded_agent : agent_def :=
  {| ad_name := "Quiet";
     ad_instructions := "Hi        ";
     ad_on_enter_prompt := "Hello!";
     ad_tools := [];
     ad_edges := [] |}.

Definition padded : customer :=
  {| doc_customer_id := "acme-05"; doc_name := "Acme";
     doc_description := "Acme support line";
     doc_agents := [padded_agent] |}.

Definition padded_graph : CustomerSchema.t :=
  {| CustomerSchema.customer_id := "acme-05";
     CustomerSchema.name := "Acme";
     CustomerSchema.description := "Acme support line";
     CustomerSchema.agents :=
       [ {| AgentConfig.name := "Quiet";
            AgentConfig.instructions := "Hi";
            AgentConfig.on_enter_prompt := "Hello!";
            AgentConfig.tools := [];
            AgentConfig.edges := [] |} ] |}.

(** The default customer of [get_customer]. *)
Definition customer_1 : customer :=
  {| doc_customer_id := "customer_1"; doc_name := "Default";
     doc_description := "Default support line";
     doc_agents := [greeter; billing] |}.

Definition start (customer_id : string) : gmap string string :=
  {[ "customer_id" := customer_id; "action" := "start_session" ]}.

(** A worker whose database holds [docs]. *)
Definition job (docs : list customer) (customer_id : string) : JobContext :=
  {| redis_ping := true;
     command := start customer_id;
     collection := Some (stored docs) |}.

End Sample.

(* ===================================================================== *)
(** ** [src/database/connection.py]: [connect]                            *)
(* ===================================================================== *)

Module Connect.

(** What one pass through the [try] block of [connect] meets: the ping
    is answered, the client or the ping raises [ConnectionFailure] or
    [ServerSelectionTimeoutError], or something else is raised. *)
Inductive attempt_result :=
| pong
| connection_failure
| other_failure.

(** How [connect] ends.  On [returns true] the manager holds the client,
    the database and the collection. *)
Inductive result :=
| returns (b : bool)
| raises_ConnectionError     (* "Unable to connect to MongoDB" *)
| raises_other.

(** The [for] loop over the attempts that are left; the second component
    lists the arguments of [asyncio.sleep], in seconds, in the order of
    the calls. *)
Fixpoint loop (max_retries : Z) (server : Z -> attempt_result)
    (attempts : list Z) : result * list Z :=
  match attempts with
  | [] => (returns false, [])
  | attempt :: rest =>
      match server attempt with
      | pong => (returns true, [])
      | connection_failure =>
          if (attempt <? max_retries - 1)%Z
          then let '(r, sleeps) := loop max_retries server rest in
               (r, (2 ^ attempt)%Z :: sleeps)
          else (raises_ConnectionError, [])
      | other_failure => (raises_other, [])
      end
  end.

(** [DatabaseManager.connect]; [server attempt] is what the attempt of
    that number meets. *)
Definition connect (max_retries : Z) (server : Z -> attempt_result)
  : result * list Z :=
  loop max_retries server (seqZ 0 max_retries).

Definition total (sleeps : list Z) : Z := foldr Z.add 0%Z sleeps.

End Connect.

(* ===================================================================== *)
(** ** [src/database/connection.py]: the operations that write            *)
(* ===================================================================== *)

(** The [schemas] collection as the list of its documents in natural
    order, with the unique index on [customer_id] that [init_database]
    creates.  The [_id] that the driver gives to a document is not part
    of [customer]. *)
Module Mongo.

Definition documents : Type := list customer.

Definition matches (customer_id : string) (d : customer) : bool :=
  String.eqb (doc_customer_id d) customer_id.

Definition find_one (docs : list customer) (customer_id : string)
  : option customer :=
  List.find (matches customer_id) docs.

(** [insert_one]: the document goes to the end; the unique index refuses
    a [customer_id] that is already there ([None] stands for the
    [DuplicateKeyError] of the driver). *)
Definition insert_one (docs : list customer) (doc : customer)
  : option (list customer) :=
  if existsb (matches (doc_customer_id doc)) docs then None
  else Some (docs ++ [doc]).

(** The documents without the first one that matches, when one does. *)
Fixpoint delete_first (customer_id : string) (docs : list customer)
  : option (list customer) :=
  match docs with
  | [] => None
  | d :: rest =>
      if matches customer_id d then Some rest
      else cons d <$> delete_first customer_id rest
  end.

(** The documents with the first one that matches exchanged for [doc],
    when one matches. *)
Fixpoint replace_first (customer_id : string) (doc : customer)
    (docs : list customer) : option (list customer) :=
  match docs with
  | [] => None
  | d :: rest =>
      if matches customer_id d then Some (doc :: rest)
      else cons d <$> replace_first customer_id doc rest
  end.

Inductive replace_result :=
| replaced (docs : list customer) (matched_count : nat)
| duplicate_key.

(** [replace_one]: no match leaves the collection alone; the unique
    index refuses a replacement whose [customer_id] is held by another
    document. *)
Definition replace_one (docs : list customer) (customer_id : string)
    (doc : customer) : replace_result :=
  match delete_first customer_id docs, replace_first customer_id doc docs with
  | Some others, Some docs' =>
      if existsb (matches (doc_customer_id doc)) others then duplicate_key
      else replaced docs' 1
  | _, _ => replaced docs 0
  end.

(** [delete_one]: the collection that is left and [deleted_count]. *)
Definition delete_one (docs : list customer) (customer_id : string)
  : list customer * nat :=
  match delete_first customer_id docs with
  | Some docs' => (docs', 1%nat)
  | None => (docs, 0%nat)
  end.

End Mongo.

Module DatabaseManager.

Inductive error :=
| ConnectionError (msg : string)
| ValueError (msg : string)
| DuplicateKeyError.

Inductive result (A : Type) :=
| Done (a : A)
| Failed (e : error).
Arguments Done {A} a.
Arguments Failed {A} e.

Definition not_connected {A} : result A :=
  Failed (ConnectionError "Database not connected").

Section Methods.
(** [str(result.inserted_id)] for the insertion of a document into a
    collection: chosen by the driver. *)
Variable inserted_id : list customer -> customer -> string.

(** [create_customer]: the result of the call and the collection after
    it.  Both ways to a [DuplicateKeyError], the test of the method and
    the index, end in the same [ValueError]. *)
Definition create_customer (collection : option Mongo.documents)
    (customer : CustomerSchema.t)
  : result string * option Mongo.documents :=
  match collection with
  | None => (not_connected, None)
  | Some docs =>
      let customer_dict := CustomerSchema.dict customer in
      let already_exists :=
        ValueError ("Customer " ++ CustomerSchema.customer_id customer
                    ++ " already exists") in
      match Mongo.find_one docs (CustomerSchema.customer_id customer) with
      | Some existing => (Failed already_exists, Some docs)
      | None =>
          match Mongo.insert_one docs customer_dict with
          | Some docs' => (Done (inserted_id docs customer_dict), Some docs')
          | None => (Failed already_exists, Some docs)
          end
      end
  end.
End Methods.

(** [update_customer]; the [except] clause raises again what it caught. *)
Definition update_customer (collection : option Mongo.documents)
    (customer_id : string) (customer : CustomerSchema.t)
  : result bool * option Mongo.documents :=
  match collection with
  | None => (not_connected, None)
  | Some docs =>
      match Mongo.replace_one docs customer_id (CustomerSchema.dict customer) with
      | Mongo.duplicate_key => (Failed DuplicateKeyError, Some docs)
      | Mongo.replaced docs' matched_count =>
          if (matched_count =? 0)%nat
          then (Failed (ValueError ("Customer " ++ customer_id ++ " not found")),
                Some docs')
          else (Done true, Some docs')
      end
  end.

(** [delete_customer] *)
Definition delete_customer (collection : option Mongo.documents)
    (customer_id : string)
  : result bool * option Mongo.documents :=
  match collection with
  | None => (not_connected, None)
  | Some docs =>
      if String.eqb customer_id "customer_1" || String.eqb customer_id "customer_2"
      then (Failed (ValueError "Cannot delete default customer schemas"), Some docs)
      else
        let '(docs', deleted_count) := Mongo.delete_one docs customer_id in
        if (deleted_count =? 0)%nat
        then (Failed (ValueError ("Customer " ++ customer_id ++ " not found")),
              Some docs')
        else (Done true, Some docs')
  end.

(** [get_all_customers]: the cursor is cut after 100 documents. *)
Definition get_all_customers (collection : option Mongo.documents)
  : result Mongo.documents :=
  match collection with
  | None => not_connected
  | Some docs => Done (firstn 100 docs)
  end.

End DatabaseManager.

(* ===================================================================== *)
(** ** [src/config/settings.py]                                           *)
(* ===================================================================== *)

Module Config.

(** A [Config] object after [__init__]; a variable that [os.getenv]
    does not find is [None]. *)
Record t := {
  LIVEKIT_URL : option string;
  LIVEKIT_API_KEY : option string;
  LIVEKIT_API_SECRET : option string;
  MONGODB_URL : string;
  REDIS_URL : string;
  REDIS_HOST : string;
  REDIS_PORT : Z;
  REDIS_DB : Z;
  API_HOST : string;
  API_PORT : Z;
  DEFAULT_SCHEMA_ID : string;
  MAX_REQUESTS_PER_MINUTE : Z;
  MAX_SESSION_DURATION_HOURS : Z;
  LOG_LEVEL : string
}.

(** The truth value of [var_value]: [None] and the empty text are false. *)
Definition truthy (var_value : option string) : bool :=
  match var_value with
  | Some (String _ _) => true
  | _ => false
  end.

(** [sep.join(l)] *)
Fixpoint join (sep : string) (l : list string) : string :=
  match l with
  | [] => ""
  | [x] => x
  | x :: rest => x ++ sep ++ join sep rest
  end.

Definition required_vars (self : t) : list (string * option string) :=
  [ ("LIVEKIT_URL", LIVEKIT_URL self);
    ("LIVEKIT_API_KEY", LIVEKIT_API_KEY self);
    ("LIVEKIT_API_SECRET", LIVEKIT_API_SECRET self) ].

(** The list [missing] when the loop of [validate_required] has ended. *)
Definition missing (self : t) : list string :=
  foldl (fun missing '(var_name, var_value) =>
           if negb (truthy var_value) then missing ++ [var_name] else missing)
        [] (required_vars self).

Inductive validation :=
| returns_True
| raises_ValueError (msg : string).

Definition validate_required (self : t) : validation :=
  match missing self with
  | [] => returns_True
  | _ :: _ =>
      raises_ValueError
        ("Missing required environment variables: " ++ join ", " (missing self))
  end.

Definition is_development (self : t) : bool :=
  bool_decide (API_HOST self ∈ ["localhost"; "127.0.0.1"; "0.0.0.0"])
  && (API_PORT self =? 8000)%Z.

End Config.

(* ===================================================================== *)
(** ** The session key, and Redis                                         *)
(* ===================================================================== *)

(** [f"session:{room_name}:{user_identity}"], which
    [src/api/simple_fastapi.py] writes under and
    [src/agents/multi_agent.py] reads from. *)
Definition session_key (room_name user_identity : string) : string :=
  "session:" ++ room_name ++ ":" ++ user_identity.

Module Redis.

(** The hashes of the Redis database, by key. *)
Definition hgetall (redis : gmap string (gmap string string)) (key : string)
  : gmap string string :=
  default ∅ (redis !! key).

(** [hset(key, mapping=mapping)]: the fields of [mapping] are set in the
    hash under [key], its other fields stay. *)
Definition hset (redis : gmap string (gmap string string)) (key : string)
    (mapping : gmap string string) : gmap string (gmap string string) :=
  <[key := mapping ∪ hgetall redis key]> redis.

End Redis.

(* ===================================================================== *)
(** ** [src/api/simple_fastapi.py]                                        *)
(* ===================================================================== *)

Module Api.

(** The exception that an [except Exception as e] clause caught. *)
Inductive cause :=
| http_exception (status_code : nat) (detail : string)
| driver_error (e : exn)
| attribute_error                      (* [db_manager.collection] is [None] *)
| manager_error (e : DatabaseManager.error).

(** The [detail] of an [HTTPException]: a text, or
    [f"Database error: {str(e)}"] for the exception [e] that was caught. *)
Inductive detail :=
| plain (s : string)
| database_error (e : cause).

(** What an endpoint answers: the body it returns, or the
    [HTTPException] that leaves it. *)
Inductive response (A : Type) :=
| ok (body : A)
| HTTPException (status_code : nat) (d : detail).
Arguments ok {A} body.
Arguments HTTPException {A} status_code d.

Definition status_code {A} (r : response A) : nat :=
  match r with
  | ok _ => 200
  | HTTPException s _ => s
  end.

(** [GET /customers/{customer_id}].  The [HTTPException] for a missing
    customer is raised inside the [try] and caught by its
    [except Exception] clause.  The body is the document, without the
    [_id] that the endpoint turns into a text. *)
Definition get_customer (collection : option Collection) (customer_id : string)
  : response customer :=
  match collection with
  | None => HTTPException 500 (database_error attribute_error)
  | Some c =>
      match find_one c customer_id with
      | Return (Some customer) => ok customer
      | Return None =>
          HTTPException 500
            (database_error
               (http_exception 404 ("Customer " ++ customer_id ++ " not found")))
      | Raise e => HTTPException 500 (database_error (driver_error e))
      end
  end.

(** How the three writing endpoints turn a failure of the manager into
    an answer: a [ValueError] gets the status [on_value_error] and its
    message, everything else the status 500. *)
Definition failed {A} (on_value_error : nat) (e : DatabaseManager.error)
  : response A :=
  match e with
  | DatabaseManager.ValueError msg => HTTPException on_value_error (plain msg)
  | _ => HTTPException 500 (database_error (manager_error e))
  end.

Section Endpoints.
Variable inserted_id : list customer -> customer -> string.

(** [POST /customers] *)
Definition create_customer (collection : option Mongo.documents)
    (customer : CustomerSchema.t)
  : response Dict * option Mongo.documents :=
  match DatabaseManager.create_customer inserted_id collection customer with
  | (DatabaseManager.Done customer_id, collection') =>
      (ok [ ("message", JStr "Customer created successfully");
            ("id", JStr customer_id) ], collection')
  | (DatabaseManager.Failed e, collection') => (failed 400 e, collection')
  end.
End Endpoints.

(** [PUT /customers/{customer_id}] *)
Definition update_customer (collection : option Mongo.documents)
    (customer_id : string) (customer : CustomerSchema.t)
  : response Dict * option Mongo.documents :=
  match DatabaseManager.update_customer collection customer_id customer with
  | (DatabaseManager.Done _, collection') =>
      (ok [ ("message", JStr "Customer updated successfully") ], collection')
  | (DatabaseManager.Failed e, collection') => (failed 404 e, collection')
  end.

(** [DELETE /customers/{customer_id}] *)
Definition delete_customer (collection : option Mongo.documents)
    (customer_id : string)
  : response Dict * option Mongo.documents :=
  match DatabaseManager.delete_customer collection customer_id with
  | (DatabaseManager.Done _, collection') =>
      (ok [ ("message", JStr "Customer deleted successfully") ], collection')
  | (DatabaseManager.Failed e, collection') => (failed 404 e, collection')
  end.

(** What [start_session] takes from outside: the two texts of
    [uuid.uuid4()], whether [create_room] returns, the token that
    [generate_token] returns if it does, and whether [hset] goes
    through. *)
Record SessionEnv := {
  room_uuid : string;
  user_uuid : string;
  room_created : bool;
  jwt_token : option string;
  redis_up : bool
}.

(** [GET /start-session]: the answer and Redis after the call.  A query
    parameter that is absent takes its default. *)
Definition start_session (collection : option Collection)
    (redis : gmap string (gmap string string)) (env : SessionEnv)
    (customer_id_param user_name_param : option string)
  : response Dict * gmap string (gmap string string) :=
  let customer_id := default "customer_1" customer_id_param in
  let user_name := default "Guest" user_name_param in
  if String.eqb customer_id "" || (50 <? String.length customer_id)%nat
  then (HTTPException 400 (plain "Invalid customer_id"), redis)
  else if String.eqb user_name "" || (100 <? String.length user_name)%nat
  then (HTTPException 400 (plain "Invalid user_name"), redis)
  else
    let found :=
      match collection with
      | None => false
      | Some c =>
          match find_one c customer_id with
          | Return (Some _) => true
          | _ => false
          end
      end in
    if negb found
    then (HTTPException 500 (plain "Database error"), redis)
    else
      let room_name := ("room-" ++ room_uuid env)%string in
      let user_identity := ("user-" ++ user_uuid env)%string in
      let failure := (HTTPException 500 (plain "Failed to create session"), redis) in
      if negb (room_created env) then failure
      else
        match jwt_token env with
        | None => failure
        | Some token =>
            if negb (redis_up env) then failure
            else
              (ok [ ("status", JStr "command_sent");
                    ("room_name", JStr room_name);
                    ("user_identity", JStr user_identity);
                    ("user_name", JStr user_name);
                    ("room_token", JStr token);
                    ("message",
                     JStr ("Session start command sent for customer: "
                           ++ customer_id)) ],
               Redis.hset redis (session_key room_name user_identity)
                 {[ "action" := "start_session"; "customer_id" := customer_id ]})
        end.

End Api.

(* ===================================================================== *)
(** ** [src/agents/multi_agent.py]: the command of a job                  *)
(* ===================================================================== *)

Module Worker.

(** The context of a job for the participant [user_identity] of the
    room [room_name]: the command is the hash under the session key. *)
Definition job_context (ping : bool) (redis : gmap string (gmap string string))
    (room_name user_identity : string) (db : option Collection) : JobContext :=
  {| redis_ping := ping;
     command := Redis.hgetall redis (session_key room_name user_identity);
     collection := db |}.

End Worker.

(* ===================================================================== *)
(** ** [scripts/populate_database.py]                                     *)
(* ===================================================================== *)

Module Populate.

Section Main.
Variable inserted_id : list customer -> customer -> string.

(** One turn of the loop of [main] over [CUSTOMERS.values()]: the
    collection after it.  Whatever the [try] raises is logged and the
    loop goes on. *)
Definition turn (existing_ids : gset string) (docs : Mongo.documents)
    (customer_data : customer) : Mongo.documents :=
  if bool_decide (doc_customer_id customer_data ∈ existing_ids) then docs
  else
    match CustomerSchema.construct customer_data with
    | Pydantic.Invalid _ => docs
    | Pydantic.Valid c =>
        match DatabaseManager.create_customer inserted_id (Some docs) c with
        | (_, Some docs') => docs'
        | (_, None) => docs
        end
    end.

(** [main] on a database that answers: the collection it leaves.
    [existing_ids] is taken once, before the loop, from the first 100
    documents. *)
Definition main (CUSTOMERS : list customer) (docs : Mongo.documents)
  : Mongo.documents :=
  match DatabaseManager.get_all_customers (Some docs) with
  | DatabaseManager.Done existing_customers =>
      let existing_ids : gset string :=
        list_to_set (List.map doc_customer_id existing_customers) in
      foldl (turn existing_ids) docs CUSTOMERS
  | DatabaseManager.Failed _ => docs
  end.
End Main.

End Populate.

(* ===================================================================== *)
(** ** Vocabulary of the further statements                               *)
(* ===================================================================== *)

(** The agents a session can come to from [current]: by calling, any
    number of times, a tool of the agent that is active and taking the
    agent that the call returns. *)
Inductive reachable (agent_map : gmap string (option AgentClass))
  : Agent -> Agent -> Prop :=
| reachable_here (current : Agent) : reachable agent_map current current
| reachable_handoff (current active next : Agent) (t : Tool) :
    reachable agent_map current active →
    t ∈ tools active →
    call_tool t agent_map = Some (handoff next) →
    reachable agent_map current next.



(* ===================================================================== *)
(** ** Further samples                                                    *)
(* ===================================================================== *)

Module Fixture.

(** A driver that names every inserted document alike. *)
Definition oid (docs : list customer) (doc : customer) : string := "oid".

(** A server that answers the second attempt, and one that never
    answers. *)
Definition second_try (attempt : Z) : Connect.attempt_result :=
  if (attempt =? 1)%Z then Connect.pong else Connect.connection_failure.

Definition down (attempt : Z) : Connect.attempt_result :=
  Connect.connection_failure.

(** The stored document of the two-agent graph. *)
Definition acme_doc : customer := CustomerSchema.dict Sample.acme_graph.

(** The same graph under another id. *)
Definition acme_moved : CustomerSchema.t :=
  {| CustomerSchema.customer_id := "acme-09";
     CustomerSchema.name := "Acme";
     CustomerSchema.description := "Acme support line";
     CustomerSchema.agents := [Sample.greeter_model; Sample.billing_model] |}.

Definition env : Api.SessionEnv :=
  {| Api.room_uuid := "r-1"; Api.user_uuid := "u-1";
     Api.room_created := true; Api.jwt_token := Some "jwt";
     Api.redis_up := true |}.

(** A configuration without the key of LiveKit. *)
Definition config : Config.t :=
  {| Config.LIVEKIT_URL := Some "wss://example.livekit.cloud";
     Config.LIVEKIT_API_KEY := None;
     Config.LIVEKIT_API_SECRET := Some "secret";
     Config.MONGODB_URL := "mongodb://localhost:27017";
     Config.REDIS_URL := "redis://localhost:6379";
     Config.REDIS_HOST := "localhost";
     Config.REDIS_PORT := 6379;
     Config.REDIS_DB := 0;
     Config.API_HOST := "0.0.0.0";
     Config.API_PORT := 8000;
     Config.DEFAULT_SCHEMA_ID := "customer_1";
     Config.MAX_REQUESTS_PER_MINUTE := 60;
     Config.MAX_SESSION_DURATION_HOURS := 2;
     Config.LOG_LEVEL := "INFO" |}.

End Fixture.

(* ===================================================================== *)
(** * Properties                                                          *)
(* ===================================================================== *)

(** ** The validation combinators *)

Section Combinators.
Import Pydantic.
Context {A B : Type}.

Lemma under_Valid (l : LocItem) (r : validated A) (a : A) :
  under l r = Valid a ↔ r = Valid a.
Proof. destruct r; simpl; split; congruence. Qed.

Lemma under_Invalid (l : LocItem) (r : validated A) :
  is_valid (under l r) = is_valid r.
Proof. by destruct r. Qed.

Lemma bind_Valid (r : validated A) (k : A -> validated B) (b : B) :
  bind r k = Valid b ↔ ∃ a, r = Valid a ∧ k a = Valid b.
Proof.
  destruct r as [a|es]; simpl; split.
  - eauto.
  - intros (a' & [= ->] & ?). done.
  - discriminate.
  - intros (? & [=] & _).
Qed.

Lemma str_length_Valid (lo hi : nat) (v w : string) :
  str_length lo hi v = Valid w ↔
  w = v ∧ (lo <= String.length v)%nat ∧ (String.length v <= hi)%nat.
Proof.
  unfold str_length, fail.
  destruct (Nat.ltb_spec (String.length v) lo);
    [|destruct (Nat.ltb_spec hi (String.length v))];
    split; try discriminate; try (intros [= <-]; split; [done|lia]);
    try (intros (-> & ? & ?); first [lia | done]).
Qed.

Lemma list_length_Valid (lo hi : nat) (l l' : list A) :
  list_length lo hi l = Valid l' ↔
  l' = l ∧ (lo <= List.length l)%nat ∧ (List.length l <= hi)%nat.
Proof.
  unfold list_length, fail.
  destruct (Nat.ltb_spec (List.length l) lo);
    [|destruct (Nat.ltb_spec hi (List.length l))];
    split; try discriminate; try (intros [= <-]; split; [done|lia]);
    try (intros (-> & ? & ?); first [lia | done]).
Qed.

(** A list is valid exactly when each of its items is, position by
    position. *)
Lemma list_items_Valid (item : A -> validated B) (i : nat) (l : list A)
    (v : list B) :
  list_items item i l = Valid v ↔ Forall2 (fun x b => item x = Valid b) l v.
Proof.
  revert i v. induction l as [|x l IH]; intros i v; simpl.
  - split; [intros [= <-]; constructor | by inversion 1].
  - destruct (item x) as [b|es] eqn:Hx; simpl.
    + destruct (list_items item (S i) l) as [bs|es'] eqn:Hl.
      * split.
        -- intros [= <-]. constructor; [done|]. by apply (IH (S i)).
        -- inversion 1 as [|? b' ? bs' Hb Hbs]; subst.
           apply (IH (S i)) in Hbs. congruence.
      * split; [discriminate|].
        inversion 1 as [|? b' ? bs' Hb Hbs]; subst.
        apply (IH (S i)) in Hbs. congruence.
    + split; [discriminate|].
      inversion 1; subst. congruence.
Qed.

Lemma list_items_length (item : A -> validated B) (i : nat) (l : list A)
    (v : list B) :
  list_items item i l = Valid v → List.length v = List.length l.
Proof.
  intros H%list_items_Valid. symmetry. by eapply Forall2_length.
Qed.

(** One failing item makes the whole list fail. *)
Lemma list_items_Invalid (item : A -> validated B) (i : nat) (l : list A) (x : A) :
  x ∈ l → is_valid (item x) = false → is_valid (list_items item i l) = false.
Proof.
  intros Hin Hx.
  destruct (list_items item i l) as [v|] eqn:Hv; [|done].
  apply list_items_Valid in Hv.
  apply list_elem_of_lookup in Hin as [k Hk].
  destruct (Forall2_lookup_l _ _ _ _ _ Hv Hk) as (b & _ & Hb).
  by rewrite Hb in Hx.
Qed.
End Combinators.

(** ** What a constructed model says about the dict it came from *)

(** Splits the four fields of a constructor call that succeeded, naming
    the four validated values. *)
Ltac four_fields_as H a b c d :=
  match type of H with
  | (match ?f1 with _ => _ end) = _ =>
      let E1 := fresh "Hf" in
      destruct f1 as [a|] eqn:E1; simpl in H; [|discriminate H];
      match type of H with
      | (match ?f2 with _ => _ end) = _ =>
          let E2 := fresh "Hf" in
          destruct f2 as [b|] eqn:E2; simpl in H; [|discriminate H];
          match type of H with
          | (match ?f3 with _ => _ end) = _ =>
              let E3 := fresh "Hf" in
              destruct f3 as [c|] eqn:E3; simpl in H; [|discriminate H];
              match type of H with
              | (match ?f4 with _ => _ end) = _ =>
                  let E4 := fresh "Hf" in
                  destruct f4 as [d|] eqn:E4; simpl in H; [|discriminate H]
              end
          end
      end
  end.

Ltac four_fields H :=
  let a := fresh "v" in
  let b := fresh "v" in
  let c := fresh "v" in
  let d := fresh "v" in
  four_fields_as H a b c d.

Lemma AgentEdge_construct_Valid (d : edge_spec) (e : AgentEdge.t) :
  AgentEdge.construct d = Pydantic.Valid e →
  AgentEdge.dict e = d
  ∧ valid_tool_name (es_name d)
  ∧ (1 <= String.length (es_description d) <= 500)%nat
  ∧ (es_action d = "handoff" ∨ es_action d = "action")
  ∧ (1 <= String.length (es_target_agent d) <= 100)%nat.
Proof.
  unfold AgentEdge.construct. intros H. four_fields H.
  injection H as <-.
  apply under_Valid, bind_Valid in Hf as (n & (-> & ? & ?)%str_length_Valid & Hn).
  apply under_Valid, str_length_Valid in Hf0 as (-> & ? & ?).
  apply under_Valid, str_length_Valid in Hf2 as (-> & ? & ?).
  apply under_Valid in Hf1.
  unfold AgentEdge.validate_name in Hn.
  destruct (Text.re_match_dollar Text.tool_ident (es_name d)) eqn:Hre;
    simpl in Hn; [|discriminate]. injection Hn as <-.
  unfold AgentEdge.action_pattern in Hf1.
  destruct (String.eqb (es_action d) "handoff") eqn:Hh; simpl in Hf1.
  - injection Hf1 as <-. apply String.eqb_eq in Hh.
    destruct d; repeat split; simpl in *; auto.
  - destruct (String.eqb (es_action d) "action") eqn:Ha; [|discriminate].
    injection Hf1 as <-. apply String.eqb_eq in Ha.
    destruct d; repeat split; simpl in *; auto.
Qed.

Lemma AgentConfig_construct_Valid (d : agent_def) (a : AgentConfig.t) :
  AgentConfig.construct d = Pydantic.Valid a →
  AgentConfig.name a = ad_name d
  ∧ AgentConfig.instructions a = Text.strip (ad_instructions d)
  ∧ AgentConfig.on_enter_prompt a = ad_on_enter_prompt d
  ∧ AgentConfig.tools a = ad_tools d
  ∧ List.map AgentEdge.dict (AgentConfig.edges a) = ad_edges d
  ∧ Forall (fun e => valid_tool_name (es_name e)) (ad_edges d).
Proof.
  unfold AgentConfig.construct. intros H. four_fields H.
  injection H as <-. simpl.
  apply under_Valid, bind_Valid in Hf as (n & (-> & _)%str_length_Valid & Hn).
  apply under_Valid, bind_Valid in Hf0 as (i & (-> & _)%str_length_Valid & Hi).
  apply under_Valid, str_length_Valid in Hf1 as (-> & _).
  apply under_Valid, list_items_Valid in Hf2.
  unfold AgentConfig.validate_agent_name in Hn.
  destruct (negb _) in Hn; [discriminate|]. injection Hn as <-.
  unfold AgentConfig.validate_instructions in Hi.
  destruct (existsb _ _) in Hi; [discriminate|]. injection Hi as <-.
  repeat split; try done.
  - induction Hf2 as [|x e l v Hx _ IH]; simpl; [done|].
    apply AgentEdge_construct_Valid in Hx as (-> & _). by rewrite IH.
  - induction Hf2 as [|x e l v Hx _ IH]; constructor; [|done].
    by apply AgentEdge_construct_Valid in Hx as (_ & ? & _).
Qed.

(** The agents of a constructed graph keep the names and the edges of
    the description, in the same order. *)
Lemma list_items_AgentConfig (l : list agent_def) (v : list AgentConfig.t) (i : nat) :
  Pydantic.list_items AgentConfig.construct i l = Pydantic.Valid v →
  List.map AgentConfig.name v = List.map ad_name l
  ∧ List.map (fun a => List.map AgentEdge.dict (AgentConfig.edges a)) v
    = List.map ad_edges l.
Proof.
  intros H%list_items_Valid.
  induction H as [|x a l v Hx _ [IH1 IH2]]; simpl; [done|].
  apply AgentConfig_construct_Valid in Hx as (-> & _ & _ & _ & -> & _).
  by rewrite IH1, IH2.
Qed.

(** ** The two validators of the [agents] field *)

#[local] Set Warnings "-clear-no-such-hyp".

Lemma size_list_to_set_le (l : list string) :
  (size (list_to_set l : gset string) <= List.length l)%nat.
Proof.
  induction l as [|x l IH].
  - rewrite list_to_set_nil, size_empty. done.
  - rewrite list_to_set_cons. cbn [List.length].
    destruct (decide (x ∈ l)) as [Hin|Hout].
    + assert ({[x]} ∪ list_to_set l = (list_to_set l : gset string)) as Heq
        by set_solver.
      rewrite Heq. lia.
    + rewrite size_union by set_solver. rewrite size_singleton. lia.
Qed.

(** [len(names) == len(set(names))] says that no name occurs twice. *)
Lemma length_eq_size_NoDup (l : list string) :
  List.length l = size (list_to_set l : gset string) ↔ NoDup l.
Proof.
  split; [|intros H; by rewrite size_list_to_set].
  induction l as [|x l IH]; [constructor|].
  rewrite list_to_set_cons. cbn [List.length].
  intros Hlen. destruct (decide (x ∈ l)) as [Hin|Hout].
  - assert ({[x]} ∪ list_to_set l = (list_to_set l : gset string)) as Heq
      by set_solver.
    rewrite Heq in Hlen. pose proof (size_list_to_set_le l). lia.
  - rewrite size_union in Hlen by set_solver.
    rewrite size_singleton in Hlen.
    constructor; [done|]. apply IH. lia.
Qed.

Lemma validate_agent_uniqueness_Valid (v v' : list AgentConfig.t) :
  CustomerSchema.validate_agent_uniqueness v = Pydantic.Valid v' ↔
  v' = v ∧ NoDup (List.map AgentConfig.name v).
Proof.
  unfold CustomerSchema.validate_agent_uniqueness, Pydantic.fail.
  destruct (Nat.eqb_spec (List.length (List.map AgentConfig.name v))
              (size (list_to_set (List.map AgentConfig.name v) : gset string)))
    as [Heq|Hne]; simpl.
  - apply length_eq_size_NoDup in Heq. split; [by intros [= <-]|by intros [-> _]].
  - split; [discriminate|]. intros [_ Hnd%length_eq_size_NoDup]. done.
Qed.

Lemma dangling_edge_None (names : gset string) (es : list AgentEdge.t) :
  CustomerSchema.dangling_edge names es = None ↔
  ∀ e, e ∈ es → AgentEdge.target_agent e ∈ names.
Proof.
  induction es as [|e es IH]; simpl.
  - split; [intros _ ? ?%elem_of_nil; done | done].
  - case_bool_decide as Hd.
    + split; [discriminate|]. intros H. destruct Hd. apply H. left.
    + rewrite IH. split.
      * intros H e' [->|?]%elem_of_cons; auto.
      * intros H e' ?. apply H. by right.
Qed.

Lemma dangling_edge_Some (names : gset string) (es : list AgentEdge.t) (tg : string) :
  CustomerSchema.dangling_edge names es = Some tg →
  (tg ∉ names) ∧ (∃ e, e ∈ es ∧ AgentEdge.target_agent e = tg).
Proof.
  induction es as [|e es IH]; simpl; [discriminate|].
  case_bool_decide as Hd.
  - intros [= <-]. split; [done|]. exists e. split; [left|done].
  - intros (? & e' & ? & ?)%IH. split; [done|]. exists e'. split; [by right|done].
Qed.

Lemma dangling_target_None (names : gset string) (v : list AgentConfig.t) :
  CustomerSchema.dangling_target names v = None ↔
  ∀ a e, a ∈ v → e ∈ AgentConfig.edges a → AgentEdge.target_agent e ∈ names.
Proof.
  induction v as [|a v IH]; simpl.
  - split; [intros _ ? ? ?%elem_of_nil; done | done].
  - destruct (CustomerSchema.dangling_edge names (AgentConfig.edges a)) as [tg|] eqn:He.
    + split; [discriminate|]. intros H.
      apply dangling_edge_Some in He as (Hout & e & Hin & <-).
      destruct Hout. apply (H a e); [left|done].
    + rewrite IH. split.
      * intros H a' e [->|?]%elem_of_cons ?; [|by eapply H].
        by eapply dangling_edge_None.
      * intros H a' e ? ?. apply (H a' e); [by right|done].
Qed.

Lemma dangling_target_Some (names : gset string) (v : list AgentConfig.t) (tg : string) :
  CustomerSchema.dangling_target names v = Some tg →
  (tg ∉ names)
  ∧ (∃ a e, a ∈ v ∧ e ∈ AgentConfig.edges a ∧ AgentEdge.target_agent e = tg).
Proof.
  induction v as [|a v IH]; simpl; [discriminate|].
  destruct (CustomerSchema.dangling_edge names (AgentConfig.edges a)) as [tg'|] eqn:He.
  - intros [= ->]. apply dangling_edge_Some in He as (? & e & ? & ?).
    split; [done|]. exists a, e. split; [left|done].
  - intros (? & a' & e & ? & ? & ?)%IH. split; [done|].
    exists a', e. split; [by right|done].
Qed.

Lemma validate_edge_targets_Valid (v v' : list AgentConfig.t) :
  CustomerSchema.validate_edge_targets v = Pydantic.Valid v' ↔
  v' = v ∧ ∀ a e, a ∈ v → e ∈ AgentConfig.edges a →
             AgentEdge.target_agent e ∈ List.map AgentConfig.name v.
Proof.
  unfold CustomerSchema.validate_edge_targets, Pydantic.fail.
  destruct (CustomerSchema.dangling_target _ v) as [tg|] eqn:Hd.
  - split; [discriminate|]. intros [_ H].
    apply dangling_target_Some in Hd as (Hout & a & e & ? & ? & <-).
    destruct Hout. apply elem_of_list_to_set. by eapply H.
  - rewrite dangling_target_None in Hd. split.
    + intros [= <-]. split; [done|]. intros a e ? ?.
      eapply (elem_of_list_to_set (C:=gset string)), Hd; done.
    + intros [-> _]. done.
Qed.

(** Everything [validate_agents] has checked when it lets a list pass. *)
Lemma validate_agents_Valid (l : list agent_def) (v : list AgentConfig.t) :
  CustomerSchema.validate_agents l = Pydantic.Valid v ↔
  Pydantic.list_items AgentConfig.construct 0 l = Pydantic.Valid v
  ∧ (1 <= List.length v <= 20)%nat
  ∧ NoDup (List.map AgentConfig.name v)
  ∧ (∀ a e, a ∈ v → e ∈ AgentConfig.edges a →
            AgentEdge.target_agent e ∈ List.map AgentConfig.name v).
Proof.
  unfold CustomerSchema.validate_agents. rewrite bind_Valid. split.
  - intros (v0 & Hitems & (v1 & (-> & ? & ?)%list_length_Valid
                           & (v2 & (-> & ?)%validate_agent_uniqueness_Valid
                              & (-> & ?)%validate_edge_targets_Valid)%bind_Valid)%bind_Valid).
    done.
  - intros (Hitems & ? & ? & ?). exists v. split; [done|].
    apply bind_Valid. exists v. split; [by apply list_length_Valid|].
    apply bind_Valid. exists v. split; [by apply validate_agent_uniqueness_Valid|].
    by apply validate_edge_targets_Valid.
Qed.

Lemma CustomerSchema_construct_Valid (d : customer) (g : CustomerSchema.t) :
  CustomerSchema.construct d = Pydantic.Valid g →
  CustomerSchema.customer_id g = Text.lower (doc_customer_id d)
  ∧ Text.re_match_dollar Text.id_chars (doc_customer_id d) = true
  ∧ CustomerSchema.name g = doc_name d
  ∧ CustomerSchema.description g = doc_description d
  ∧ CustomerSchema.validate_agents (doc_agents d)
    = Pydantic.Valid (CustomerSchema.agents g).
Proof.
  unfold CustomerSchema.construct. intros H. four_fields H.
  injection H as <-. simpl.
  apply under_Valid, bind_Valid in Hf as (i & (-> & _)%str_length_Valid & Hi).
  apply under_Valid, str_length_Valid in Hf0 as (-> & _).
  apply under_Valid, str_length_Valid in Hf1 as (-> & _).
  apply under_Valid in Hf2.
  unfold CustomerSchema.validate_customer_id in Hi.
  destruct (Text.re_match_dollar Text.id_chars (doc_customer_id d)) eqn:Hre;
    simpl in Hi; [|discriminate]. injection Hi as <-.
  done.
Qed.

(** ** The two passes of the factory *)

Lemma handoff_tools_fold (es : list edge_spec) (acc : list Tool) :
  foldl (fun tools edge =>
           match create_handoff_tool edge with
           | Some tool => tools ++ [tool]
           | None => tools
           end) acc es
  = acc ++ omap create_handoff_tool es.
Proof.
  revert acc. induction es as [|e es IH]; intros acc; simpl.
  - by rewrite app_nil_r.
  - rewrite IH. destruct (create_handoff_tool e); simpl; [|done].
    by rewrite <- app_assoc.
Qed.

Lemma create_handoff_tool_is_Some (e : edge_spec) :
  is_Some (create_handoff_tool e).
Proof. unfold create_handoff_tool. destruct (_ && _); eauto. Qed.

(** The tools of an agent are its edges, one tool for each edge, in
    order. *)
Lemma handoff_tools_lookup (d : agent_def) (i : nat) :
  handoff_tools d !! i = ad_edges d !! i ≫= create_handoff_tool.
Proof.
  unfold handoff_tools. rewrite handoff_tools_fold. simpl.
  revert i. induction (ad_edges d) as [|e es IH]; intros i; [done|].
  simpl. destruct (create_handoff_tool_is_Some e) as [t Ht]. rewrite Ht.
  destruct i; simpl; [done|]. apply IH.
Qed.

Lemma handoff_tools_length (d : agent_def) :
  List.length (handoff_tools d) = List.length (ad_edges d).
Proof.
  unfold handoff_tools. rewrite handoff_tools_fold. simpl.
  induction (ad_edges d) as [|e es IH]; [done|].
  simpl. destruct (create_handoff_tool_is_Some e) as [t ->]. simpl. by f_equal.
Qed.

Lemma first_pass_fold (l : list agent_def) (m : gmap string (option AgentClass))
    (n : string) :
  foldl (fun agent_map d => <[ad_name d := None]> agent_map) m l !! n
  = if decide (n ∈ List.map ad_name l) then Some None else m !! n.
Proof.
  revert m. induction l as [|d l IH]; intros m.
  - cbn [foldl List.map]. destruct (decide (n ∈ [])) as [H|_]; [|done].
    by apply elem_of_nil in H.
  - cbn [foldl List.map]. rewrite IH.
    destruct (decide (n ∈ List.map ad_name l)) as [Hin|Hout];
      destruct (decide (n ∈ ad_name d :: List.map ad_name l)) as [Hin'|Hout'];
      try done.
    + destruct Hout'. by right.
    + apply elem_of_cons in Hin' as [->|?]; [apply lookup_insert_eq|done].
    + apply lookup_insert_ne. intros Heq. apply Hout'. rewrite <- Heq. left.
Qed.

Lemma first_pass_lookup (l : list agent_def) (n : string) :
  first_pass l !! n = if decide (n ∈ List.map ad_name l) then Some None else None.
Proof. unfold first_pass. rewrite first_pass_fold. by rewrite lookup_empty. Qed.

(** The second pass leaves the slots of other names alone. *)
Lemma second_pass_other (l : list agent_def) (m : gmap string (option AgentClass))
    (n : string) :
  n ∉ List.map ad_name l → second_pass l m !! n = m !! n.
Proof.
  unfold second_pass. revert m. induction l as [|d l IH]; intros m Hn; simpl; [done|].
  rewrite IH by set_solver. apply lookup_insert_ne. set_solver.
Qed.

(** Every name of the list ends with a class in its slot: the class of
    some agent of that name. *)
Lemma second_pass_filled (l : list agent_def) (m : gmap string (option AgentClass))
    (n : string) :
  n ∈ List.map ad_name l →
  ∃ d, d ∈ l ∧ ad_name d = n
       ∧ second_pass l m !! n = Some (Some (make_agent_class d (handoff_tools d))).
Proof.
  unfold second_pass. revert m. induction l as [|d l IH]; intros m Hn; simpl.
  - by apply elem_of_nil in Hn.
  - destruct (decide (n ∈ List.map ad_name l)) as [Hin|Hout].
    + destruct (IH (<[ad_name d := Some (make_agent_class d (handoff_tools d))]> m) Hin)
        as (d' & ? & ? & ?).
      exists d'. split; [by right|done].
    + assert (ad_name d = n) as Hd by set_solver.
      exists d. split; [left|]. split; [done|].
      fold (second_pass l (<[ad_name d := Some (make_agent_class d (handoff_tools d))]> m)).
      rewrite second_pass_other by done. rewrite <- Hd. apply lookup_insert_eq.
Qed.

(** With distinct names the slot of an agent holds the class built from
    that very agent. *)
Lemma second_pass_NoDup (l : list agent_def) (m : gmap string (option AgentClass))
    (d : agent_def) :
  NoDup (List.map ad_name l) → d ∈ l →
  second_pass l m !! ad_name d = Some (Some (make_agent_class d (handoff_tools d))).
Proof.
  intros Hnd Hd.
  destruct (second_pass_filled l m (ad_name d)) as (d' & Hd' & Hname & ->).
  { apply list_elem_of_fmap. by exists d. }
  assert (d' = d) as ->; [|done].
  apply list_elem_of_lookup in Hd as [i Hi].
  apply list_elem_of_lookup in Hd' as [j Hj].
  assert (i = j) as ->.
  { eapply NoDup_lookup; [exact Hnd| |].
    - by rewrite list_lookup_fmap, Hi.
    - by rewrite list_lookup_fmap, Hj, <- Hname. }
  congruence.
Qed.

Lemma agent_factory_dom (l : list agent_def) (n : string) :
  n ∉ List.map ad_name l → agent_factory l !! n = None.
Proof.
  intros Hn. unfold agent_factory. rewrite second_pass_other by done.
  rewrite first_pass_lookup. by case_decide.
Qed.

(** ** Constructed graphs *)

Lemma AgentConfig_edges_Valid (d : agent_def) (a : AgentConfig.t) :
  AgentConfig.construct d = Pydantic.Valid a →
  Forall2 (fun x e => AgentEdge.construct x = Pydantic.Valid e)
          (ad_edges d) (AgentConfig.edges a).
Proof.
  unfold AgentConfig.construct. intros H. four_fields H.
  injection H as <-. simpl. by apply under_Valid, list_items_Valid in Hf2.
Qed.

Lemma constructed_agents (d : customer) (g : CustomerSchema.t) :
  CustomerSchema.construct d = Pydantic.Valid g →
  Forall2 (fun x a => AgentConfig.construct x = Pydantic.Valid a)
          (doc_agents d) (CustomerSchema.agents g).
Proof.
  intros (_ & _ & _ & _ & Hv)%CustomerSchema_construct_Valid.
  apply validate_agents_Valid in Hv as (Hitems & _).
  by apply list_items_Valid in Hitems.
Qed.

(** Every edge of a constructed graph went through the constructor of
    [AgentEdge]. *)
Lemma constructed_edge (d : customer) (g : CustomerSchema.t)
    (a : AgentConfig.t) (e : AgentEdge.t) :
  CustomerSchema.construct d = Pydantic.Valid g →
  a ∈ CustomerSchema.agents g → e ∈ AgentConfig.edges a →
  AgentEdge.construct (AgentEdge.dict e) = Pydantic.Valid e.
Proof.
  intros Hg%constructed_agents [i Hi]%list_elem_of_lookup [j Hj]%list_elem_of_lookup.
  destruct (Forall2_lookup_r _ _ _ _ _ Hg Hi) as (x & _ & Hx).
  apply AgentConfig_edges_Valid in Hx.
  destruct (Forall2_lookup_r _ _ _ _ _ Hx Hj) as (y & _ & Hy).
  pose proof (AgentEdge_construct_Valid _ _ Hy) as (-> & _). done.
Qed.

Lemma dict_agent_names (v : list AgentConfig.t) :
  List.map ad_name (List.map AgentConfig.dict v) = List.map AgentConfig.name v.
Proof. induction v as [|a v IH]; simpl; [done|]. by rewrite IH. Qed.

(** The stored agent list of a constructed graph: distinct names, and
    every edge is well formed and points at an agent of the list. *)
Lemma stored_agents_wf (d : customer) (g : CustomerSchema.t) :
  CustomerSchema.construct d = Pydantic.Valid g →
  let agent_list := doc_agents (CustomerSchema.dict g) in
  NoDup (List.map ad_name agent_list)
  ∧ ∀ a e, a ∈ agent_list → e ∈ ad_edges a →
      es_target_agent e ∈ List.map ad_name agent_list
      ∧ es_target_agent e ≠ ""
      ∧ (es_action e = "handoff" ∨ es_action e = "action")
      ∧ valid_tool_name (es_name e).
Proof.
  intros Hg. pose proof Hg as (_ & _ & _ & _ & Hv)%CustomerSchema_construct_Valid.
  apply validate_agents_Valid in Hv as (_ & _ & Hnd & Htg).
  simpl. rewrite dict_agent_names. split; [done|].
  intros a e (a0 & -> & Ha0)%list_elem_of_fmap (e0 & -> & He0)%list_elem_of_fmap.
  pose proof (constructed_edge _ _ _ _ Hg Ha0 He0) as He.
  apply AgentEdge_construct_Valid in He as (_ & Hname & _ & Hact & Hlen).
  simpl in *. repeat split; try done.
  - by eapply Htg.
  - intros Heq. rewrite Heq in Hlen. simpl in Hlen. lia.
  - apply Hname.
  - apply Hname.
  - apply Hname.
Qed.

(** The handler reads the table when it is called: on the table as the
    first pass leaves it the target is still missing, on the finished
    table the same call hands over. *)
Lemma handler_reads_table_at_call_time (agent_list : list agent_def) (tg : string) :
  tg ∈ List.map ad_name agent_list →
  handler tg (first_pass agent_list)
  = text ("Error: Target agent " ++ tg ++ " not found")
  ∧ ∃ cls, cls_name cls = tg
           ∧ handler tg (agent_factory agent_list) = handoff (new cls).
Proof.
  intros Hin. split.
  - unfold handler. rewrite first_pass_lookup. by case_decide.
  - destruct (second_pass_filled agent_list (first_pass agent_list) tg Hin)
      as (d & _ & Hname & Hlook).
    exists (make_agent_class d (handoff_tools d)). split; [exact Hname|].
    unfold handler, agent_factory. by rewrite Hlook.
Qed.

(** ** C1 *)

(** C1.  For a graph that passed validation, [agent_factory] applied to
    its stored agent list leaves a class, never the placeholder, under
    every agent name; every tool of every class, when called, looks its
    target up in that table and hands over to a new instance of the
    class stored there; every edge of kind ["handoff"] is such a tool;
    so no handler returns the "not found" text. *)
Theorem handoff_targets_resolve (d : customer) (g : CustomerSchema.t) :
  CustomerSchema.construct d = Pydantic.Valid g →
  let agent_list := doc_agents (CustomerSchema.dict g) in
  let agent_map := agent_factory agent_list in
  (∀ a, a ∈ agent_list →
        agent_map !! ad_name a = Some (Some (make_agent_class a (handoff_tools a))))
  ∧ (∀ n, agent_map !! n ≠ Some None)
  ∧ (∀ n cls t, agent_map !! n = Some (Some cls) → t ∈ cls_tools cls →
                resolves agent_map t)
  ∧ (∀ a e, a ∈ agent_list → e ∈ ad_edges a → es_action e = "handoff" →
        ∃ schema cls,
          create_handoff_tool e = Some (function_tool (es_target_agent e) schema)
          ∧ agent_map !! es_target_agent e = Some (Some cls)
          ∧ cls_name cls = es_target_agent e
          ∧ handler (es_target_agent e) agent_map = handoff (new cls)
          ∧ handler (es_target_agent e) agent_map
            ≠ text ("Error: Target agent " ++ es_target_agent e ++ " not found")).
Proof.
  intros Hg agent_list agent_map.
  pose proof (stored_agents_wf d g Hg) as [Hnd Hwf].
  fold agent_list in Hnd, Hwf.
  assert (∀ n, n ∈ List.map ad_name agent_list →
               ∃ a, a ∈ agent_list ∧ ad_name a = n
                    ∧ agent_map !! n = Some (Some (make_agent_class a (handoff_tools a))))
    as Hfilled.
  { intros n Hn. apply second_pass_filled. done. }
  assert (∀ tg, tg ∈ List.map ad_name agent_list →
                ∃ cls, agent_map !! tg = Some (Some cls) ∧ cls_name cls = tg
                       ∧ handler tg agent_map = handoff (new cls)) as Hcall.
  { intros tg (a & _ & Hname & Hlook)%Hfilled.
    eexists. split; [exact Hlook|]. split; [done|].
    unfold handler. by rewrite Hlook. }
  split; [|split; [|split]].
  - intros a Ha. by apply second_pass_NoDup.
  - intros n Hn. destruct (decide (n ∈ List.map ad_name agent_list)) as [Hin|Hout].
    + destruct (Hfilled n Hin) as (a & _ & _ & Hlook). congruence.
    + unfold agent_map in Hn. rewrite agent_factory_dom in Hn by done. discriminate.
  - intros n cls t Hn Ht.
    destruct (decide (n ∈ List.map ad_name agent_list)) as [Hin|Hout].
    2:{ unfold agent_map in Hn. rewrite agent_factory_dom in Hn by done. discriminate. }
    destruct (Hfilled n Hin) as (a & Ha & _ & Hlook).
    rewrite Hlook in Hn. injection Hn as <-. simpl in Ht.
    apply list_elem_of_lookup in Ht as [i Hi].
    rewrite handoff_tools_lookup in Hi.
    destruct (ad_edges a !! i) as [e|] eqn:He; [|discriminate]. simpl in Hi.
    assert (e ∈ ad_edges a) as Hin_e by (by eapply list_elem_of_lookup_2).
    destruct (Hwf a e Ha Hin_e) as (Htg & _).
    unfold create_handoff_tool in Hi.
    destruct (_ && _) in Hi; injection Hi as <-; simpl; [|done].
    destruct (Hcall _ Htg) as (cls & ? & ? & Hh).
    exists cls. by rewrite Hh.
  - intros a e Ha He Hact.
    destruct (Hwf a e Ha He) as (Htg & Hne & _).
    destruct (Hcall _ Htg) as (cls & Hlook & Hname & Hh).
    eexists _, cls. split; [|split; [done|split; [done|split; [done|]]]].
    + unfold create_handoff_tool. rewrite Hact.
      apply String.eqb_neq in Hne. rewrite Hne. reflexivity.
    + rewrite Hh. discriminate.
Qed.

(** ** C6 *)

(** C6.  The list [tools] that the factory builds for an agent has one
    entry for each edge of the agent, in order; at the position of every
    edge whose kind is not ["handoff"] (so of every edge of kind
    ["action"]) it holds the constant text ["I can't do that right
    now."], an entry that cannot be called: the edge is neither skipped
    nor turned into a callable tool.  With distinct agent names this list
    is the tool list of the class stored under the name of the agent. *)
Theorem action_edges_become_text (agent_list : list agent_def) (d : agent_def) :
  List.length (handoff_tools d) = List.length (ad_edges d)
  ∧ (∀ i e, ad_edges d !! i = Some e → es_action e ≠ "handoff" →
       handoff_tools d !! i = Some (str_tool "I can't do that right now.")
       ∧ ∀ agent_map,
           call_tool (str_tool "I can't do that right now.") agent_map = None)
  ∧ (NoDup (List.map ad_name agent_list) → d ∈ agent_list →
     ∃ cls, agent_factory agent_list !! ad_name d = Some (Some cls)
            ∧ cls_tools cls = handoff_tools d).
Proof.
  split; [apply handoff_tools_length|]. split.
  - intros i e Hi Hact. split; [|done].
    rewrite handoff_tools_lookup, Hi. simpl. unfold create_handoff_tool.
    apply String.eqb_neq in Hact. by rewrite Hact.
  - intros Hnd Hd. eexists. split; [by apply second_pass_NoDup|done].
Qed.

(** ** C8 *)

(** C8.  When the stored agent list is not empty and the command is
    ["start_session"], [entrypoint] starts the session with a new
    instance of the class stored under the name of the first agent of
    the list; with distinct names that class is the one built from the
    first agent itself. *)
Theorem session_starts_with_first_agent (ctx : JobContext) (customer_id : string)
    (first : agent_def) (rest : list agent_def) :
  redis_ping ctx = true →
  command ctx !! "customer_id" = Some customer_id →
  command ctx !! "action" = Some "start_session" →
  get_customer (collection ctx) customer_id = Return (first :: rest) →
  ∃ cls, entrypoint ctx = started (new cls)
    ∧ agent_factory (first :: rest) !! ad_name first = Some (Some cls)
    ∧ cls_name cls = ad_name first
    ∧ (NoDup (List.map ad_name (first :: rest)) →
       cls = make_agent_class first (handoff_tools first)).
Proof.
  intros Hping Hid Hact Hget.
  destruct (second_pass_filled (first :: rest) (first_pass (first :: rest))
              (ad_name first)) as (d & Hd & Hname & Hlook).
  { left. }
  exists (make_agent_class d (handoff_tools d)).
  split; [|split; [exact Hlook|split; [done|]]].
  - unfold entrypoint. rewrite Hping, Hid, Hget. simpl negb. cbv iota.
    unfold agent_factory. rewrite Hlook, Hact. done.
  - intros Hnd.
    pose proof (second_pass_NoDup (first :: rest) (first_pass (first :: rest))
                  first Hnd ltac:(left)) as Hfirst.
    rewrite Hfirst in Hlook. congruence.
Qed.

(** ** C7 *)

(** C7, as the code has it.  On an empty agent list [entrypoint] never
    reaches [session.start] and builds no agent: the subscript
    [agent_schema[0]] raises [IndexError], which leaves [entrypoint];
    there is no separate test for emptiness. *)
Theorem empty_graph_raises_IndexError (ctx : JobContext) (customer_id : string) :
  redis_ping ctx = true →
  command ctx !! "customer_id" = Some customer_id →
  get_customer (collection ctx) customer_id = Return [] →
  entrypoint ctx = raised IndexError
  ∧ ∀ initial_agent, entrypoint ctx ≠ started initial_agent.
Proof.
  intros Hping Hid Hget.
  assert (entrypoint ctx = raised IndexError) as ->.
  { unfold entrypoint. by rewrite Hping, Hid, Hget. }
  split; [done|discriminate].
Qed.

(** ** C5 *)

Lemma stored_find_Some (docs : list customer) (customer_id : string) (c : customer) :
  find_one (stored docs) customer_id = Return (Some c) →
  c ∈ docs ∧ doc_customer_id c = customer_id.
Proof.
  simpl. intros [= H]. apply find_some in H as [Hin Heq].
  split; [by apply list_elem_of_In|by apply String.eqb_eq].
Qed.

Lemma stored_find_None (docs : list customer) (customer_id : string) :
  find_one (stored docs) customer_id = Return None →
  ∀ c, c ∈ docs → doc_customer_id c ≠ customer_id.
Proof.
  simpl. intros [= H] c Hin%list_elem_of_In.
  apply String.eqb_neq. by apply (find_none _ _ H).
Qed.

(** C5, as the code has it.  [get_customer] answers with the agents of a
    stored document of the requested id when there is one; when there is
    none it answers with the agents of the document of id
    ["customer_1"], and with the empty list when that is missing too.
    It never reports that the id is unknown.  Without a collection it
    raises [ConnectionError]; a failure of the driver gives the empty
    list. *)
Theorem get_customer_falls_back (docs : list customer) (customer_id : string) :
  ((∃ c, c ∈ docs ∧ doc_customer_id c = customer_id
         ∧ get_customer (Some (stored docs)) customer_id = Return (doc_agents c))
   ∨ ((∀ c, c ∈ docs → doc_customer_id c ≠ customer_id)
      ∧ ((∃ c, c ∈ docs ∧ doc_customer_id c = "customer_1"
               ∧ get_customer (Some (stored docs)) customer_id = Return (doc_agents c))
         ∨ ((∀ c, c ∈ docs → doc_customer_id c ≠ "customer_1")
            ∧ get_customer (Some (stored docs)) customer_id = Return []))))
  ∧ get_customer None customer_id = Raise ConnectionError
  ∧ (∀ c e, find_one c customer_id = Raise e →
            get_customer (Some c) customer_id = Return []).
Proof.
  split; [|split; [done|]].
  - unfold get_customer.
    destruct (find_one (stored docs) customer_id) as [[c|]|] eqn:H1; [| |done].
    + left. apply stored_find_Some in H1 as [? ?]. by exists c.
    + right. split; [by apply stored_find_None|].
      destruct (find_one (stored docs) "customer_1") as [[c|]|] eqn:H2; [| |done].
      * left. apply stored_find_Some in H2 as [? ?]. by exists c.
      * right. split; [by apply stored_find_None|done].
  - intros c e H. unfold get_customer. by rewrite H.
Qed.

(** The requested id is not stored, and the agents of another customer
    come back. *)
Lemma get_customer_substitutes_default :
  find_one (stored [Sample.customer_1]) "acme-01" = Return None
  ∧ doc_customer_id Sample.customer_1 ≠ "acme-01"
  ∧ get_customer (Some (stored [Sample.customer_1])) "acme-01"
    = Return (doc_agents Sample.customer_1).
Proof. split; [reflexivity|]. split; [discriminate|reflexivity]. Qed.

(** ** C7: the run on an empty list *)

(** The run on an empty list does not end in a refusal, it ends in the
    exception of the subscript. *)
Lemma empty_graph_not_refused :
  get_customer (collection (Sample.job [] "acme-01")) "acme-01" = Return []
  ∧ entrypoint (Sample.job [] "acme-01") = raised IndexError
  ∧ entrypoint (Sample.job [] "acme-01") ≠ returned.
Proof. split; [reflexivity|]. split; [reflexivity|discriminate]. Qed.

(** ** C4 *)

Lemma NoDup_no_repeats {A} (key : A → string) (l : list A) :
  NoDup (List.map key l) → ¬ repeats key l.
Proof.
  intros Hnd (i & j & x & y & Hij & Hi & Hj & Heq). apply Hij.
  eapply NoDup_lookup; [exact Hnd| |].
  - by rewrite list_lookup_fmap, Hi.
  - by rewrite list_lookup_fmap, Hj, Heq.
Qed.

(** C4.  A description in which two agents share a name is rejected with
    a validation error, and the agents of every constructed graph have
    pairwise distinct names. *)
Theorem duplicate_agent_names_rejected (d : customer) :
  (repeats ad_name (doc_agents d) →
   ∃ errors, CustomerSchema.construct d = Pydantic.Invalid errors)
  ∧ (∀ g, CustomerSchema.construct d = Pydantic.Valid g →
          NoDup (List.map AgentConfig.name (CustomerSchema.agents g))
          ∧ ¬ repeats AgentConfig.name (CustomerSchema.agents g)).
Proof.
  assert (∀ g, CustomerSchema.construct d = Pydantic.Valid g →
               NoDup (List.map AgentConfig.name (CustomerSchema.agents g))
               ∧ List.map AgentConfig.name (CustomerSchema.agents g)
                 = List.map ad_name (doc_agents d)) as Hvalid.
  { intros g (_ & _ & _ & _ & Hv)%CustomerSchema_construct_Valid.
    apply validate_agents_Valid in Hv as (Hitems & _ & Hnd & _).
    split; [done|]. by apply list_items_AgentConfig in Hitems as [? _]. }
  split.
  - intros Hrep. destruct (CustomerSchema.construct d) as [g|errors] eqn:Hg; [|eauto].
    destruct (Hvalid g eq_refl) as [Hnd Hnames]. rewrite Hnames in Hnd.
    by apply NoDup_no_repeats in Hnd.
  - intros g Hg. destruct (Hvalid g Hg) as [Hnd _].
    split; [done|by apply NoDup_no_repeats].
Qed.

(** ** C2 *)



Lemma contains_app_r (p a s : string) :
  Text.contains p s = true → Text.contains p (a ++ s) = true.
Proof.
  intros H. induction a as [|c a IH]; simpl; [done|].
  rewrite IH. apply orb_true_r.
Qed.







(** ** C3 *)



(** ** C10 *)

Lemma lower_char_idempotent (c : ascii) :
  Text.lower_char (Text.lower_char c) = Text.lower_char c.
Proof.
  destruct c as [[] [] [] [] [] [] [] []]; vm_compute; reflexivity.
Qed.

Lemma lower_idempotent (s : string) : Text.lower (Text.lower s) = Text.lower s.
Proof.
  unfold Text.lower. induction s as [|c s IH]; cbn [Text.map]; [done|].
  by rewrite lower_char_idempotent, IH.
Qed.

(** C10.  The [customer_id] of a constructed graph is the lowercased
    [customer_id] of the description; it is therefore lowercase, as is
    the [customer_id] of the document stored for the graph; and a query
    that contains a capital letter never finds that document. *)
Theorem customer_id_is_lowercased (d : customer) (g : CustomerSchema.t) :
  CustomerSchema.construct d = Pydantic.Valid g →
  CustomerSchema.customer_id g = Text.lower (doc_customer_id d)
  ∧ Text.lower (CustomerSchema.customer_id g) = CustomerSchema.customer_id g
  ∧ doc_customer_id (CustomerSchema.dict g) = Text.lower (doc_customer_id d)
  ∧ (∀ docs query, Text.lower query ≠ query →
       find_one (stored docs) query ≠ Return (Some (CustomerSchema.dict g))).
Proof.
  intros (Hid & _)%CustomerSchema_construct_Valid.
  split; [done|]. split; [rewrite Hid; apply lower_idempotent|]. split; [done|].
  intros docs query Hq Hfind. apply Hq.
  apply stored_find_Some in Hfind as [_ <-]. simpl.
  rewrite Hid. apply lower_idempotent.
Qed.

(** ** Text under [lower] and [strip] *)

Lemma length_map (f : ascii → ascii) (s : string) :
  String.length (Text.map f s) = String.length s.
Proof. induction s as [|c s IH]; simpl; [done|]. by rewrite IH. Qed.

Lemma map_app (f : ascii → ascii) (a b : string) :
  Text.map f (a ++ b) = (Text.map f a ++ Text.map f b)%string.
Proof. induction a as [|c a IH]; simpl; [done|]. by rewrite IH. Qed.

Lemma id_class_lower_char (c : ascii) :
  (Text.is_alpha c || Text.is_digit c || Text.is_underscore c || Text.is_hyphen c) = true →
  (Text.is_alpha (Text.lower_char c) || Text.is_digit (Text.lower_char c)
   || Text.is_underscore (Text.lower_char c) || Text.is_hyphen (Text.lower_char c)) = true.
Proof.
  destruct c as [[] [] [] [] [] [] [] []]; vm_compute; intros H; exact H || reflexivity.
Qed.

Lemma newline_lower_char (c : ascii) :
  (Text.code (Text.lower_char c) =? 10)%nat = (Text.code c =? 10)%nat.
Proof. destruct c as [[] [] [] [] [] [] [] []]; vm_compute; reflexivity. Qed.

Lemma all_id_class_lower (s : string) :
  Text.all (fun c => Text.is_alpha c || Text.is_digit c
                     || Text.is_underscore c || Text.is_hyphen c) s = true →
  Text.all (fun c => Text.is_alpha c || Text.is_digit c
                     || Text.is_underscore c || Text.is_hyphen c)
           (Text.lower s) = true.
Proof.
  unfold Text.lower. induction s as [|c s IH]; cbn [Text.map Text.all]; [done|].
  intros [Hc Hs]%andb_true_iff. rewrite (id_class_lower_char c Hc). by apply IH.
Qed.

Lemma id_chars_lower (s : string) :
  Text.id_chars s = true → Text.id_chars (Text.lower s) = true.
Proof.
  destruct s as [|c0 s0]; [done|]. intros H.
  apply (all_id_class_lower (String c0 s0)) in H. exact H.
Qed.

Lemma chop_newline_lower (s : string) :
  Text.chop_newline (Text.lower s) = Text.lower <$> Text.chop_newline s.
Proof.
  unfold Text.lower. induction s as [|c s IH]; [done|].
  cbn [Text.map Text.chop_newline]. destruct s as [|c' s'].
  - cbn [Text.map]. rewrite newline_lower_char. by destruct (_ =? _)%nat.
  - cbn [Text.map] in *. rewrite IH.
    by destruct (Text.chop_newline (String c' s')).
Qed.

Lemma re_match_id_lower (s : string) :
  Text.re_match_dollar Text.id_chars s = true →
  Text.re_match_dollar Text.id_chars (Text.lower s) = true.
Proof.
  unfold Text.re_match_dollar. rewrite chop_newline_lower.
  intros [H|H]%orb_true_iff.
  - by rewrite id_chars_lower.
  - destruct (Text.chop_newline s) as [s'|]; [|done]. simpl.
    rewrite (id_chars_lower s' H). apply orb_true_r.
Qed.

Lemma lstrip_lstripped (s : string) : lstripped (Text.lstrip s).
Proof.
  induction s as [|c s IH]; simpl; [done|].
  destruct (Text.isspace c) eqn:Hc; [done|]. simpl. done.
Qed.

Lemma lstrip_id (s : string) : lstripped s → Text.lstrip s = s.
Proof. destruct s as [|c s]; simpl; [done|]. by intros ->. Qed.

Lemma rstrip_lstripped (s : string) : lstripped s → lstripped (Text.rstrip s).
Proof.
  destruct s as [|c s]; simpl; [done|]. intros Hc.
  destruct (Text.rstrip s); [by rewrite Hc|done].
Qed.

Lemma rstrip_idempotent (s : string) : Text.rstrip (Text.rstrip s) = Text.rstrip s.
Proof.
  induction s as [|c s IH]; simpl; [done|].
  destruct (Text.rstrip s) as [|c' r'] eqn:Hr.
  - destruct (Text.isspace c) eqn:Hc; simpl; [done|]. by rewrite Hc.
  - change (Text.rstrip (String c (String c' r'))) with
      (match Text.rstrip (String c' r') with
       | EmptyString => if Text.isspace c then EmptyString else String c EmptyString
       | r'' => String c r''
       end).
    by rewrite IH.
Qed.

Lemma strip_idempotent (s : string) : Text.strip (Text.strip s) = Text.strip s.
Proof.
  unfold Text.strip.
  rewrite (lstrip_id (Text.rstrip (Text.lstrip s)))
    by apply rstrip_lstripped, lstrip_lstripped.
  apply rstrip_idempotent.
Qed.

Lemma lstrip_suffix (s : string) : ∃ a, s = (a ++ Text.lstrip s)%string.
Proof.
  induction s as [|c s [a IH]]; simpl; [by exists ""|].
  destruct (Text.isspace c); [|by exists ""].
  exists (String c a). change (String c s = String c (a ++ Text.lstrip s)%string).
  by f_equal.
Qed.

Lemma rstrip_prefix (s : string) : ∃ b, s = (Text.rstrip s ++ b)%string.
Proof.
  induction s as [|c s [b IH]]; [by exists ""|].
  cbn [Text.rstrip]. destruct (Text.rstrip s) as [|c' r'] eqn:Hr.
  - destruct (Text.isspace c).
    + by exists (String c s).
    + exists b. change (String c s = String c ("" ++ b)%string). by f_equal.
  - exists b. change (String c s = String c (String c' r' ++ b)%string).
    by f_equal.
Qed.

(** [strip] cuts a text out of the middle of its argument. *)
Lemma strip_infix (s : string) : ∃ a b, s = (a ++ Text.strip s ++ b)%string.
Proof.
  destruct (lstrip_suffix s) as [a Ha].
  destruct (rstrip_prefix (Text.lstrip s)) as [b Hb].
  exists a, b. unfold Text.strip. by rewrite <- Hb.
Qed.

Lemma length_app (a b : string) :
  String.length (a ++ b) = (String.length a + String.length b)%nat.
Proof. induction a as [|c a IH]; simpl; [done|]. by rewrite IH. Qed.

Lemma length_strip_le (s : string) :
  (String.length (Text.strip s) <= String.length s)%nat.
Proof.
  destruct (strip_infix s) as (a & b & Hs). rewrite Hs at 2.
  rewrite !length_app. lia.
Qed.

Lemma startswith_app_r (p s b : string) :
  Text.startswith p s = true → Text.startswith p (s ++ b) = true.
Proof.
  revert s. induction p as [|c p IH]; intros s; simpl; [done|].
  destruct s as [|c' s]; simpl; [done|].
  intros [-> H]%andb_true_iff. by rewrite IH.
Qed.

Lemma contains_app_l (p s b : string) :
  Text.contains p s = true → Text.contains p (s ++ b) = true.
Proof.
  induction s as [|c s IH].
  - simpl. rewrite orb_false_r. destruct p; [|done]. intros _. by destruct b.
  - cbn [Text.contains]. intros [H|H]%orb_true_iff.
    + change (String c s ++ b)%string with (String c (s ++ b)).
      cbn [Text.contains].
      change (String c (s ++ b)) with (String c s ++ b)%string.
      by rewrite (startswith_app_r _ _ b H).
    + change (String c s ++ b)%string with (String c (s ++ b)).
      cbn [Text.contains]. rewrite (IH H). apply orb_true_r.
Qed.

(** A keyword found in the stripped text is found in the text. *)
Lemma contains_lower_strip (keyword s : string) :
  Text.contains keyword (Text.lower (Text.strip s)) = true →
  Text.contains keyword (Text.lower s) = true.
Proof.
  intros H. destruct (strip_infix s) as (a & b & Hs). rewrite Hs at 1.
  unfold Text.lower in *. rewrite !map_app.
  by apply contains_app_r, contains_app_l.
Qed.

(** ** Parsing the dict of a constructed model *)

Lemma AgentEdge_roundtrip (x : edge_spec) (e : AgentEdge.t) :
  AgentEdge.construct x = Pydantic.Valid e →
  AgentEdge.construct (AgentEdge.dict e) = Pydantic.Valid e.
Proof.
  intros H. by pose proof (AgentEdge_construct_Valid _ _ H) as (-> & _).
Qed.

Lemma edges_roundtrip (xs : list edge_spec) (es : list AgentEdge.t) (i : nat) :
  Forall2 (fun x e => AgentEdge.construct x = Pydantic.Valid e) xs es →
  Pydantic.list_items AgentEdge.construct i (List.map AgentEdge.dict es)
  = Pydantic.Valid es.
Proof.
  intros H. apply list_items_Valid.
  induction H as [|x e xs es Hx _ IH]; simpl; constructor; [|done].
  by eapply AgentEdge_roundtrip.
Qed.

Lemma validate_instructions_strip (v w : string) :
  AgentConfig.validate_instructions v = Pydantic.Valid w →
  AgentConfig.validate_instructions w = Pydantic.Valid w.
Proof.
  unfold AgentConfig.validate_instructions.
  destruct (existsb _ _) eqn:Hk; [discriminate|]. intros [= <-].
  rewrite strip_idempotent.
  destruct (existsb (fun keyword => Text.contains keyword (Text.lower (Text.strip v)))
              AgentConfig.prohibited_keywords) eqn:Hk'; [|done].
  apply existsb_exists in Hk' as (k & Hin & Hc%contains_lower_strip).
  assert (existsb (fun keyword => Text.contains keyword (Text.lower v))
            AgentConfig.prohibited_keywords = true) as Hk''.
  { apply existsb_exists. eauto. }
  congruence.
Qed.

(** The dict of a constructed agent is accepted again, and gives the
    same agent, as soon as its instructions still have ten characters. *)
Lemma AgentConfig_roundtrip (x : agent_def) (a : AgentConfig.t) :
  AgentConfig.construct x = Pydantic.Valid a →
  (10 <= String.length (AgentConfig.instructions a))%nat →
  AgentConfig.construct (AgentConfig.dict a) = Pydantic.Valid a.
Proof.
  intros Hc Hlen. pose proof (AgentConfig_edges_Valid _ _ Hc) as Hedges.
  unfold AgentConfig.construct in Hc. four_fields_as Hc n i p es.
  injection Hc as <-. simpl in Hlen, Hedges.
  unfold AgentConfig.construct. cbn [AgentConfig.dict ad_name ad_instructions
    ad_on_enter_prompt ad_tools ad_edges AgentConfig.name AgentConfig.instructions
    AgentConfig.on_enter_prompt AgentConfig.tools AgentConfig.edges].
  apply under_Valid, bind_Valid in Hf as (n' & Hn & Hname).
  pose proof Hn as (-> & _)%str_length_Valid.
  assert (n = ad_name x) as ->.
  { unfold AgentConfig.validate_agent_name in Hname.
    destruct (negb _) in Hname; [discriminate|]. by injection Hname. }
  rewrite Hn. cbn [Pydantic.bind]. rewrite Hname. cbn [Pydantic.under].
  apply under_Valid, bind_Valid in Hf0 as (i' & (-> & _ & Hmax)%str_length_Valid & Hi).
  assert (Pydantic.str_length 10 10000 i = Pydantic.Valid i) as ->.
  { apply str_length_Valid. split; [done|]. split; [done|].
    unfold AgentConfig.validate_instructions in Hi.
    destruct (existsb _ _) in Hi; [discriminate|]. injection Hi as <-.
    etrans; [apply length_strip_le|exact Hmax]. }
  cbn [Pydantic.bind]. rewrite (validate_instructions_strip _ _ Hi).
  cbn [Pydantic.under].
  apply under_Valid in Hf1. pose proof Hf1 as (-> & _)%str_length_Valid.
  rewrite Hf1. cbn [Pydantic.under].
  rewrite (edges_roundtrip _ _ 0 Hedges). done.
Qed.

Lemma agents_roundtrip (xs : list agent_def) (ags : list AgentConfig.t) :
  Forall2 (fun x a => AgentConfig.construct x = Pydantic.Valid a) xs ags →
  Forall (fun a => (10 <= String.length (AgentConfig.instructions a))%nat) ags →
  Forall2 (fun x a => AgentConfig.construct x = Pydantic.Valid a)
          (List.map AgentConfig.dict ags) ags.
Proof.
  induction 1 as [|x a xs ags Hx _ IH]; simpl; [constructor|].
  intros [Hlen Hrest]%Forall_cons. constructor; [|by apply IH].
  by eapply AgentConfig_roundtrip.
Qed.

(** Serialising a constructed graph and parsing the result gives the
    graph back, the agents in the same order, provided the instructions
    of every agent still have the ten characters the field asks for. *)
Lemma CustomerSchema_roundtrip (d : customer) (g : CustomerSchema.t) :
  CustomerSchema.construct d = Pydantic.Valid g →
  Forall (fun a => (10 <= String.length (AgentConfig.instructions a))%nat)
         (CustomerSchema.agents g) →
  CustomerSchema.construct (CustomerSchema.dict g) = Pydantic.Valid g.
Proof.
  intros Hc Hlen. pose proof (constructed_agents _ _ Hc) as Hags.
  unfold CustomerSchema.construct in Hc. four_fields_as Hc i n ds ags.
  injection Hc as <-. simpl in Hlen, Hags.
  unfold CustomerSchema.construct.
  cbn [CustomerSchema.dict doc_customer_id doc_name doc_description doc_agents
       CustomerSchema.customer_id CustomerSchema.name CustomerSchema.description
       CustomerSchema.agents].
  apply under_Valid, bind_Valid in Hf as (i' & (-> & Hlo & Hhi)%str_length_Valid & Hi).
  unfold CustomerSchema.validate_customer_id in Hi.
  destruct (Text.re_match_dollar Text.id_chars (doc_customer_id d)) eqn:Hre;
    simpl in Hi; [|discriminate]. injection Hi as <-.
  assert (Pydantic.str_length 1 50 (Text.lower (doc_customer_id d))
          = Pydantic.Valid (Text.lower (doc_customer_id d))) as ->.
  { apply str_length_Valid. unfold Text.lower. by rewrite length_map. }
  cbn [Pydantic.bind]. unfold CustomerSchema.validate_customer_id.
  rewrite (re_match_id_lower _ Hre), lower_idempotent. cbn [negb Pydantic.under].
  apply under_Valid in Hf0. pose proof Hf0 as (-> & _)%str_length_Valid.
  rewrite Hf0. cbn [Pydantic.under].
  apply under_Valid in Hf1. pose proof Hf1 as (-> & _)%str_length_Valid.
  rewrite Hf1. cbn [Pydantic.under].
  apply under_Valid, validate_agents_Valid in Hf2 as (_ & Hn & Hnd & Htg).
  assert (CustomerSchema.validate_agents (List.map AgentConfig.dict ags)
          = Pydantic.Valid ags) as ->; [|done].
  apply validate_agents_Valid. split; [|done].
  apply list_items_Valid. by apply (agents_roundtrip (doc_agents d)).
Qed.

(** ** C9 *)

(** C9.  Parsing the serialised form of a constructed graph does not
    always give the graph back.  At a description whose instructions
    were padded with blanks the description is accepted, the
    instructions are stored stripped, and the same constructor rejects
    the dict of the graph it has just built, because the stripped
    instructions are shorter than the bound the field declares. *)
Theorem roundtrip_fails_on_padded_instructions :
  CustomerSchema.construct Sample.padded = Pydantic.Valid Sample.padded_graph
  ∧ CustomerSchema.construct (CustomerSchema.dict Sample.padded_graph)
    = Pydantic.Invalid
        [ {| Pydantic.loc := [Pydantic.Key "agents"; Pydantic.Index 0;
                              Pydantic.Key "instructions"];
             Pydantic.type := Pydantic.string_too_short 10 |} ].
Proof. split; vm_compute; reflexivity. Qed.

(* ===================================================================== *)
(** * The statements at the sample graphs                                 *)
(* ===================================================================== *)

(** The two-agent graph: after the factory has run, no slot of the table
    holds the placeholder and the edge of the greeter hands over to a
    new billing agent. *)
Lemma handoff_targets_resolve_witness :
  CustomerSchema.construct Sample.acme = Pydantic.Valid Sample.acme_graph
  ∧ (∀ n, agent_factory (doc_agents (CustomerSchema.dict Sample.acme_graph)) !! n
          ≠ Some None)
  ∧ resolves (agent_factory (doc_agents (CustomerSchema.dict Sample.acme_graph)))
      (function_tool "Billing"
         {| rs_name := "to_billing";
            rs_description := "Transfer the caller. Will handoff to: Billing" |}).
Proof.
  assert (CustomerSchema.construct Sample.acme = Pydantic.Valid Sample.acme_graph)
    as Hc by (vm_compute; reflexivity).
  destruct (handoff_targets_resolve Sample.acme Sample.acme_graph Hc)
    as (_ & Hfilled & Hres & _).
  split; [exact Hc|]. split; [exact Hfilled|].
  eapply (Hres "Greeter"); [vm_compute; reflexivity|]. simpl. left.
Defined.



Lemma duplicate_agent_names_rejected_witness :
  repeats ad_name (doc_agents Sample.repeated_and_dangling)
  ∧ ∃ errors, CustomerSchema.construct Sample.repeated_and_dangling
              = Pydantic.Invalid errors.
Proof.
  assert (repeats ad_name (doc_agents Sample.repeated_and_dangling)) as Hr.
  { exists 0%nat, 1%nat, Sample.greeter, Sample.greeter_again.
    split; [lia|]. split; [reflexivity|]. split; reflexivity. }
  split; [exact Hr|].
  exact (proj1 (duplicate_agent_names_rejected Sample.repeated_and_dangling) Hr).
Defined.

Lemma get_customer_falls_back_witness :
  get_customer None "acme-01" = Raise ConnectionError.
Proof.
  exact (proj1 (proj2 (get_customer_falls_back [] "acme-01"))).
Defined.

Lemma action_edges_become_text_witness :
  NoDup (List.map ad_name (doc_agents Sample.acme))
  ∧ Sample.billing ∈ doc_agents Sample.acme
  ∧ ∃ cls, agent_factory (doc_agents Sample.acme) !! "Billing" = Some (Some cls)
      ∧ List.length (cls_tools cls) = 2%nat
      ∧ cls_tools cls !! 1%nat = Some (str_tool "I can't do that right now.").
Proof.
  assert (NoDup (List.map ad_name (doc_agents Sample.acme))) as Hnd.
  { apply (bool_decide_unpack _). vm_compute. exact I. }
  assert (Sample.billing ∈ doc_agents Sample.acme) as Hin.
  { simpl. right. left. }
  split; [exact Hnd|]. split; [exact Hin|].
  destruct (action_edges_become_text (doc_agents Sample.acme) Sample.billing)
    as (Hlen & Htext & Hcls).
  destruct (Hcls Hnd Hin) as (cls & Hlook & Htools).
  exists cls. split; [exact Hlook|]. rewrite Htools. split; [exact Hlen|].
  apply (Htext 1%nat Sample.refund); [reflexivity|discriminate].
Defined.

Lemma empty_graph_raises_IndexError_witness :
  get_customer (collection (Sample.job [] "acme-01")) "acme-01" = Return []
  ∧ entrypoint (Sample.job [] "acme-01") = raised IndexError.
Proof.
  split; [reflexivity|].
  apply (empty_graph_raises_IndexError (Sample.job [] "acme-01") "acme-01");
    reflexivity.
Defined.

Lemma session_starts_with_first_agent_witness :
  get_customer
    (collection (Sample.job [CustomerSchema.dict Sample.acme_graph] "acme-01"))
    "acme-01"
  = Return [Sample.greeter; Sample.billing]
  ∧ ∃ cls, entrypoint (Sample.job [CustomerSchema.dict Sample.acme_graph] "acme-01")
           = started (new cls)
           ∧ cls_name cls = "Greeter"
           ∧ cls = make_agent_class Sample.greeter (handoff_tools Sample.greeter).
Proof.
  split; [reflexivity|].
  destruct (session_starts_with_first_agent
              (Sample.job [CustomerSchema.dict Sample.acme_graph] "acme-01")
              "acme-01" Sample.greeter [Sample.billing])
    as (cls & Hrun & _ & Hname & Hcls); try reflexivity.
  exists cls. split; [exact Hrun|]. split; [exact Hname|].
  apply Hcls. apply (bool_decide_unpack _). vm_compute. exact I.
Defined.

Lemma customer_id_is_lowercased_witness :
  CustomerSchema.construct Sample.acme = Pydantic.Valid Sample.acme_graph
  ∧ CustomerSchema.customer_id Sample.acme_graph = Text.lower "Acme-01"
  ∧ find_one (stored [CustomerSchema.dict Sample.acme_graph]) "Acme-01"
    ≠ Return (Some (CustomerSchema.dict Sample.acme_graph)).
Proof.
  assert (CustomerSchema.construct Sample.acme = Pydantic.Valid Sample.acme_graph)
    as Hc by (vm_compute; reflexivity).
  destruct (customer_id_is_lowercased Sample.acme Sample.acme_graph Hc)
    as (Hid & _ & _ & Hfind).
  split; [exact Hc|]. split; [exact Hid|].
  apply Hfind. discriminate.
Defined.

(* ===================================================================== *)
(** * Further properties                                                  *)
(* ===================================================================== *)

(** ** [connect]: attempts and waiting times *)

Lemma total_powers (a : Z) (n : nat) :
  (0 <= a)%Z →
  Connect.total ((fun j => 2 ^ j)%Z <$> seqZ a (Z.of_nat n))
  = (2 ^ (a + Z.of_nat n) - 2 ^ a)%Z.
Proof.
  revert a. induction n as [|n IH]; intros a Ha.
  - rewrite seqZ_nil by lia. simpl. rewrite Z.add_0_r. lia.
  - rewrite seqZ_cons by lia. cbn [fmap list_fmap Connect.total foldr].
    replace (Z.pred (Z.of_nat (S n))) with (Z.of_nat n) by lia.
    fold (Connect.total ((fun j => 2 ^ j)%Z <$> seqZ (Z.succ a) (Z.of_nat n))).
    rewrite IH by lia.
    replace (Z.succ a + Z.of_nat n)%Z with (a + Z.of_nat (S n))%Z by lia.
    replace (Z.succ a) with (a + 1)%Z by lia.
    rewrite (Z.pow_add_r 2 a 1) by lia. rewrite Z.pow_1_r. lia.
Qed.

Lemma loop_succeeds (max_retries : Z) (server : Z → Connect.attempt_result)
    (d : nat) (a n : Z) :
  (a + Z.of_nat d < a + n)%Z → (a + Z.of_nat d < max_retries)%Z →
  (∀ j, (a <= j < a + Z.of_nat d)%Z → server j = Connect.connection_failure) →
  server (a + Z.of_nat d)%Z = Connect.pong →
  Connect.loop max_retries server (seqZ a n)
  = (Connect.returns true, (fun j => 2 ^ j)%Z <$> seqZ a (Z.of_nat d)).
Proof.
  revert a n. induction d as [|d IH]; intros a n Hn Hm Hfail Hpong.
  - rewrite (seqZ_cons a n) by lia. simpl.
    replace (a + Z.of_nat 0)%Z with a in Hpong by lia. rewrite Hpong.
    reflexivity.
  - rewrite (seqZ_cons a n) by lia. cbn [Connect.loop].
    rewrite (Hfail a) by lia.
    destruct (Z.ltb_spec a (max_retries - 1)) as [_|?]; [|lia].
    rewrite (IH (Z.succ a) (Z.pred n)).
    + rewrite (seqZ_cons a (Z.of_nat (S d))) by lia.
      by replace (Z.pred (Z.of_nat (S d))) with (Z.of_nat d) by lia.
    + lia.
    + lia.
    + intros j Hj. apply Hfail. lia.
    + by replace (Z.succ a + Z.of_nat d)%Z with (a + Z.of_nat (S d))%Z by lia.
Qed.

Lemma loop_gives_up (max_retries : Z) (server : Z → Connect.attempt_result)
    (d : nat) (a : Z) :
  (a + Z.of_nat (S d) = max_retries)%Z →
  (∀ j, (a <= j < max_retries)%Z → server j = Connect.connection_failure) →
  Connect.loop max_retries server (seqZ a (Z.of_nat (S d)))
  = (Connect.raises_ConnectionError, (fun j => 2 ^ j)%Z <$> seqZ a (Z.of_nat d)).
Proof.
  revert a. induction d as [|d IH]; intros a Hm Hfail.
  - rewrite seqZ_cons by lia. cbn [Connect.loop]. rewrite (Hfail a) by lia.
    destruct (Z.ltb_spec a (max_retries - 1)) as [?|_]; [lia|].
    by rewrite seqZ_nil by lia.
  - rewrite seqZ_cons by lia. cbn [Connect.loop]. rewrite (Hfail a) by lia.
    destruct (Z.ltb_spec a (max_retries - 1)) as [_|?]; [|lia].
    replace (Z.pred (Z.of_nat (S (S d)))) with (Z.of_nat (S d)) by lia.
    rewrite (IH (Z.succ a)) by (first [lia | intros j Hj; apply Hfail; lia]).
    rewrite (seqZ_cons a (Z.of_nat (S d))) by lia.
    by replace (Z.pred (Z.of_nat (S d))) with (Z.of_nat d) by lia.
Qed.

(** [connect] with the first answered ping at attempt [k] (counted from
    0) returns [True]; before that it has slept 1, 2, 4, ... seconds
    after the failed attempts, [2^k - 1] seconds in all. *)
Theorem connect_succeeds_after_backoff (max_retries k : Z)
    (server : Z → Connect.attempt_result) :
  (0 <= k < max_retries)%Z →
  (∀ j, (0 <= j < k)%Z → server j = Connect.connection_failure) →
  server k = Connect.pong →
  Connect.connect max_retries server
  = (Connect.returns true, (fun j => 2 ^ j)%Z <$> seqZ 0 k)
  ∧ Connect.total (snd (Connect.connect max_retries server)) = (2 ^ k - 1)%Z.
Proof.
  intros Hk Hfail Hpong.
  assert (Connect.connect max_retries server
          = (Connect.returns true, (fun j => 2 ^ j)%Z <$> seqZ 0 k)) as Hrun.
  { unfold Connect.connect.
    rewrite (loop_succeeds max_retries server (Z.to_nat k) 0 max_retries).
    - by rewrite Z2Nat.id by lia.
    - lia.
    - lia.
    - intros j Hj. apply Hfail. lia.
    - by replace (0 + Z.of_nat (Z.to_nat k))%Z with k by lia. }
  split; [exact Hrun|]. rewrite Hrun. simpl.
  replace k with (Z.of_nat (Z.to_nat k)) at 1 by lia.
  rewrite total_powers by lia.
  replace (0 + Z.of_nat (Z.to_nat k))%Z with k by lia. simpl. lia.
Qed.

(** When every one of the [max_retries] attempts fails to reach the
    server, [connect] raises [ConnectionError]; it has slept after every
    attempt but the last, [2^(max_retries - 1) - 1] seconds in all. *)
Theorem connect_gives_up_after_max_retries (max_retries : Z)
    (server : Z → Connect.attempt_result) :
  (0 < max_retries)%Z →
  (∀ j, (0 <= j < max_retries)%Z → server j = Connect.connection_failure) →
  Connect.connect max_retries server
  = (Connect.raises_ConnectionError,
     (fun j => 2 ^ j)%Z <$> seqZ 0 (max_retries - 1))
  ∧ Connect.total (snd (Connect.connect max_retries server))
    = (2 ^ (max_retries - 1) - 1)%Z.
Proof.
  intros Hm Hfail.
  assert (Connect.connect max_retries server
          = (Connect.raises_ConnectionError,
             (fun j => 2 ^ j)%Z <$> seqZ 0 (max_retries - 1))) as Hrun.
  { unfold Connect.connect.
    replace max_retries with (Z.of_nat (S (Z.to_nat (max_retries - 1)))) at 2 by lia.
    rewrite (loop_gives_up max_retries server (Z.to_nat (max_retries - 1)) 0)
      by (first [lia | done]).
    by rewrite Z2Nat.id by lia. }
  split; [exact Hrun|]. rewrite Hrun. simpl.
  replace (max_retries - 1)%Z with (Z.of_nat (Z.to_nat (max_retries - 1))) at 1 by lia.
  rewrite total_powers by lia.
  replace (0 + Z.of_nat (Z.to_nat (max_retries - 1)))%Z with (max_retries - 1)%Z by lia.
  simpl. lia.
Qed.

Lemma loop_not_False (max_retries : Z) (server : Z → Connect.attempt_result)
    (d : nat) (a : Z) :
  (a + Z.of_nat (S d) = max_retries)%Z →
  fst (Connect.loop max_retries server (seqZ a (Z.of_nat (S d))))
  ≠ Connect.returns false.
Proof.
  revert a. induction d as [|d IH]; intros a Hm.
  - rewrite seqZ_cons by lia. cbn [Connect.loop].
    destruct (server a); simpl; [discriminate| |discriminate].
    destruct (Z.ltb_spec a (max_retries - 1)) as [?|_]; [lia|]. discriminate.
  - rewrite seqZ_cons by lia. cbn [Connect.loop].
    destruct (server a); simpl; [discriminate| |discriminate].
    destruct (Z.ltb_spec a (max_retries - 1)) as [_|?]; [|discriminate].
    replace (Z.pred (Z.of_nat (S (S d)))) with (Z.of_nat (S d)) by lia.
    specialize (IH (Z.succ a) ltac:(lia)).
    destruct (Connect.loop max_retries server (seqZ (Z.succ a) (Z.of_nat (S d)))).
    exact IH.
Qed.

(** [connect] returns [False] exactly when [max_retries] is not
    positive: then no attempt is made and nothing is slept. *)
Theorem connect_returns_False_iff (max_retries : Z)
    (server : Z → Connect.attempt_result) :
  fst (Connect.connect max_retries server) = Connect.returns false
  ↔ (max_retries <= 0)%Z.
Proof.
  unfold Connect.connect. split.
  - intros H. destruct (Z.le_gt_cases max_retries 0) as [?|Hpos]; [done|].
    exfalso. revert H.
    replace max_retries with (Z.of_nat (S (Z.to_nat (max_retries - 1)))) at 2 by lia.
    apply loop_not_False. lia.
  - intros H. by rewrite seqZ_nil.
Qed.

(** ** The collection as a list *)

Lemma matches_true (customer_id : string) (d : customer) :
  Mongo.matches customer_id d = true ↔ doc_customer_id d = customer_id.
Proof. apply String.eqb_eq. Qed.

Lemma matches_false (customer_id : string) (d : customer) :
  Mongo.matches customer_id d = false ↔ doc_customer_id d ≠ customer_id.
Proof. apply String.eqb_neq. Qed.

Lemma stored_find_one (docs : list customer) (customer_id : string) :
  find_one (stored docs) customer_id = Return (Mongo.find_one docs customer_id).
Proof. reflexivity. Qed.

Lemma find_one_app (l1 l2 : list customer) (customer_id : string) :
  Mongo.find_one (l1 ++ l2) customer_id
  = match Mongo.find_one l1 customer_id with
    | Some d => Some d
    | None => Mongo.find_one l2 customer_id
    end.
Proof.
  unfold Mongo.find_one. induction l1 as [|x l1 IH]; simpl; [done|].
  by destruct (Mongo.matches customer_id x).
Qed.

Lemma find_one_None (docs : list customer) (customer_id : string) :
  Mongo.find_one docs customer_id = None
  ↔ customer_id ∉ List.map doc_customer_id docs.
Proof.
  unfold Mongo.find_one. induction docs as [|x docs IH]; simpl.
  - split; [intros _ H; by apply elem_of_nil in H|done].
  - destruct (Mongo.matches customer_id x) eqn:Hx.
    + apply matches_true in Hx. split; [discriminate|].
      intros H. destruct H. rewrite Hx. left.
    + apply matches_false in Hx. rewrite IH. split.
      * intros H [Heq|Hin]%elem_of_cons; [by destruct Hx|done].
      * intros H Hin. apply H. by right.
Qed.

Lemma find_one_Some (docs : list customer) (customer_id : string) (d : customer) :
  Mongo.find_one docs customer_id = Some d →
  ∃ l1 l2, docs = l1 ++ d :: l2
           ∧ (customer_id ∉ List.map doc_customer_id l1)
           ∧ doc_customer_id d = customer_id.
Proof.
  unfold Mongo.find_one. induction docs as [|x docs IH]; simpl; [discriminate|].
  destruct (Mongo.matches customer_id x) eqn:Hx.
  - intros [= <-]. apply matches_true in Hx. exists [], docs.
    split; [done|]. split; [|done]. intros H. by apply elem_of_nil in H.
  - intros (l1 & l2 & -> & Hout & Hid)%IH. apply matches_false in Hx.
    exists (x :: l1), l2. split; [done|]. split; [|done].
    simpl. intros [Heq|Hin]%elem_of_cons; [by destruct Hx|done].
Qed.

Lemma existsb_matches (docs : list customer) (customer_id : string) :
  existsb (Mongo.matches customer_id) docs = false
  ↔ customer_id ∉ List.map doc_customer_id docs.
Proof.
  rewrite <- find_one_None. unfold Mongo.find_one.
  induction docs as [|x docs IH]; simpl; [done|].
  destruct (Mongo.matches customer_id x); simpl; [split; discriminate|done].
Qed.

Lemma delete_first_split (customer_id : string) (l1 l2 : list customer)
    (d : customer) :
  customer_id ∉ List.map doc_customer_id l1 → doc_customer_id d = customer_id →
  Mongo.delete_first customer_id (l1 ++ d :: l2) = Some (l1 ++ l2).
Proof.
  intros Hout Hid. induction l1 as [|x l1 IH]; simpl.
  - apply matches_true in Hid. by rewrite Hid.
  - simpl in Hout. apply not_elem_of_cons in Hout as [Hx Hout].
    assert (Mongo.matches customer_id x = false) as -> by (by apply matches_false).
    by rewrite IH.
Qed.

Lemma replace_first_split (customer_id : string) (doc : customer)
    (l1 l2 : list customer) (d : customer) :
  customer_id ∉ List.map doc_customer_id l1 → doc_customer_id d = customer_id →
  Mongo.replace_first customer_id doc (l1 ++ d :: l2) = Some (l1 ++ doc :: l2).
Proof.
  intros Hout Hid. induction l1 as [|x l1 IH]; simpl.
  - apply matches_true in Hid. by rewrite Hid.
  - simpl in Hout. apply not_elem_of_cons in Hout as [Hx Hout].
    assert (Mongo.matches customer_id x = false) as -> by (by apply matches_false).
    by rewrite IH.
Qed.

Lemma delete_first_None (customer_id : string) (docs : list customer) :
  customer_id ∉ List.map doc_customer_id docs →
  Mongo.delete_first customer_id docs = None.
Proof.
  induction docs as [|x docs IH]; simpl; [done|].
  intros [Hx Hout]%not_elem_of_cons.
  assert (Mongo.matches customer_id x = false) as -> by (by apply matches_false).
  by rewrite IH.
Qed.

Lemma replace_first_None (customer_id : string) (doc : customer)
    (docs : list customer) :
  customer_id ∉ List.map doc_customer_id docs →
  Mongo.replace_first customer_id doc docs = None.
Proof.
  induction docs as [|x docs IH]; simpl; [done|].
  intros [Hx Hout]%not_elem_of_cons.
  assert (Mongo.matches customer_id x = false) as -> by (by apply matches_false).
  by rewrite IH.
Qed.


Lemma find_one_head (d : customer) (l : list customer) (customer_id : string) :
  Mongo.find_one (d :: l) customer_id
  = if Mongo.matches customer_id d then Some d else Mongo.find_one l customer_id.
Proof. reflexivity. Qed.

(** ** [create_customer], [update_customer], [delete_customer] *)

(** A graph created under an id that is not yet stored is what
    [get_customer] then finds under that id: its agents, in order, as
    dicts.  The documents that were there stay in place, so every other
    id that was stored still gives the same agents. *)
Theorem create_customer_then_get (inserted_id : list customer → customer → string)
    (docs : list customer) (c : CustomerSchema.t) :
  Mongo.find_one docs (CustomerSchema.customer_id c) = None →
  ∃ oid,
    DatabaseManager.create_customer inserted_id (Some docs) c
    = (DatabaseManager.Done oid, Some (docs ++ [CustomerSchema.dict c]))
    ∧ get_customer (Some (stored (docs ++ [CustomerSchema.dict c])))
        (CustomerSchema.customer_id c)
      = Return (List.map AgentConfig.dict (CustomerSchema.agents c))
    ∧ ∀ customer_id d, Mongo.find_one docs customer_id = Some d →
        get_customer (Some (stored (docs ++ [CustomerSchema.dict c]))) customer_id
        = Return (doc_agents d).
Proof.
  intros Hnew. eexists. split; [|split].
  - unfold DatabaseManager.create_customer, Mongo.insert_one. rewrite Hnew.
    apply find_one_None, existsb_matches in Hnew.
    cbn [CustomerSchema.dict doc_customer_id]. rewrite Hnew. reflexivity.
  - unfold get_customer. rewrite stored_find_one, find_one_app, Hnew.
    rewrite find_one_head.
    assert (Mongo.matches (CustomerSchema.customer_id c) (CustomerSchema.dict c) = true)
      as -> by (by apply matches_true).
    done.
  - intros customer_id d Hd. unfold get_customer.
    by rewrite stored_find_one, find_one_app, Hd.
Qed.

(** [create_customer] never touches a document that is stored: the old
    collection is a prefix of the new one.  An id that is already stored
    is refused with the [ValueError] "Customer ... already exists" and
    nothing is written; so ids that were pairwise distinct stay so. *)
Theorem create_customer_keeps_documents
    (inserted_id : list customer → customer → string)
    (docs : list customer) (c : CustomerSchema.t) :
  (∃ docs', snd (DatabaseManager.create_customer inserted_id (Some docs) c)
            = Some docs'
            ∧ docs `prefix_of` docs'
            ∧ (NoDup (List.map doc_customer_id docs) →
               NoDup (List.map doc_customer_id docs')))
  ∧ (CustomerSchema.customer_id c ∈ List.map doc_customer_id docs →
     DatabaseManager.create_customer inserted_id (Some docs) c
     = (DatabaseManager.Failed
          (DatabaseManager.ValueError
             ("Customer " ++ CustomerSchema.customer_id c ++ " already exists")),
        Some docs)).
Proof.
  unfold DatabaseManager.create_customer, Mongo.insert_one.
  cbn [CustomerSchema.dict doc_customer_id].
  destruct (Mongo.find_one docs (CustomerSchema.customer_id c)) as [d|] eqn:Hfind.
  - split; [exists docs; by split|done].
  - pose proof Hfind as Hout%find_one_None.
    pose proof Hout as Hex%existsb_matches. rewrite Hex. split; [|done].
    exists (docs ++ [CustomerSchema.dict c]). split; [done|].
    split; [by apply prefix_app_r|].
    intros Hnd. rewrite List.map_app. apply NoDup_app. split; [done|].
    split; [|apply NoDup_singleton].
    intros x Hx [->|H%elem_of_nil]%elem_of_cons; done.
Qed.

(** [delete_customer] refuses the two default ids and leaves the
    collection as it is; so after any sequence of calls the documents of
    ["customer_1"] and ["customer_2"] are the ones that were stored
    before. *)
Theorem delete_customer_keeps_defaults (docs : list customer)
    (customer_ids : list string) :
  (∀ customer_id, customer_id = "customer_1" ∨ customer_id = "customer_2" →
     DatabaseManager.delete_customer (Some docs) customer_id
     = (DatabaseManager.Failed
          (DatabaseManager.ValueError "Cannot delete default customer schemas"),
        Some docs))
  ∧ ∃ docs',
      foldl (fun collection customer_id =>
               snd (DatabaseManager.delete_customer collection customer_id))
            (Some docs) customer_ids = Some docs'
      ∧ Mongo.find_one docs' "customer_1" = Mongo.find_one docs "customer_1"
      ∧ Mongo.find_one docs' "customer_2" = Mongo.find_one docs "customer_2".
Proof.
  split.
  - intros customer_id [->| ->]; reflexivity.
  - revert docs. induction customer_ids as [|customer_id ids IH]; intros docs.
    + by exists docs.
    + cbn [foldl].
      assert (∃ docs1,
                 snd (DatabaseManager.delete_customer (Some docs) customer_id)
                 = Some docs1
                 ∧ Mongo.find_one docs1 "customer_1" = Mongo.find_one docs "customer_1"
                 ∧ Mongo.find_one docs1 "customer_2" = Mongo.find_one docs "customer_2")
        as (docs1 & -> & H1 & H2).
      { unfold DatabaseManager.delete_customer, Mongo.delete_one.
        destruct (String.eqb customer_id "customer_1") eqn:E1;
          [by exists docs|].
        destruct (String.eqb customer_id "customer_2") eqn:E2;
          [by exists docs|].
        apply String.eqb_neq in E1, E2. simpl.
        destruct (Mongo.find_one docs customer_id) as [d|] eqn:Hfind.
        - apply find_one_Some in Hfind as (l1 & l2 & -> & Hout & Hid).
          rewrite (delete_first_split customer_id l1 l2 d Hout Hid). simpl.
          exists (l1 ++ l2). split; [done|].
          rewrite !find_one_app, !find_one_head.
          assert (Mongo.matches "customer_1" d = false) as ->
            by (apply matches_false; congruence).
          assert (Mongo.matches "customer_2" d = false) as ->
            by (apply matches_false; congruence).
          done.
        - apply find_one_None in Hfind.
          rewrite (delete_first_None _ _ Hfind). simpl. by exists docs. }
      destruct (IH docs1) as (docs' & Hfold & H1' & H2').
      exists docs'. split; [done|]. by rewrite H1', H2'.
Qed.

(** Deleting a stored customer, not one of the defaults, takes out its
    document and no other.  With distinct ids the id is then unknown,
    and [get_customer] answers for it with the agents of ["customer_1"],
    or with the empty list when there is no such document. *)
Theorem delete_customer_then_get (docs : list customer) (customer_id : string)
    (d : customer) :
  NoDup (List.map doc_customer_id docs) →
  Mongo.find_one docs customer_id = Some d →
  customer_id ≠ "customer_1" → customer_id ≠ "customer_2" →
  ∃ docs',
    DatabaseManager.delete_customer (Some docs) customer_id
    = (DatabaseManager.Done true, Some docs')
    ∧ S (List.length docs') = List.length docs
    ∧ Mongo.find_one docs' customer_id = None
    ∧ (∀ other, other ≠ customer_id →
                Mongo.find_one docs' other = Mongo.find_one docs other)
    ∧ get_customer (Some (stored docs')) customer_id
      = Return (match Mongo.find_one docs "customer_1" with
                | Some default_customer => doc_agents default_customer
                | None => []
                end).
Proof.
  intros Hnd Hfind H1 H2.
  apply find_one_Some in Hfind as (l1 & l2 & -> & Hout & Hid).
  assert (customer_id ∉ List.map doc_customer_id l2) as Hout2.
  { rewrite List.map_app in Hnd. apply NoDup_app in Hnd as (_ & _ & Hnd2).
    simpl in Hnd2. apply NoDup_cons in Hnd2 as [Hd _]. by rewrite Hid in Hd. }
  assert (∀ other, other ≠ customer_id →
            Mongo.find_one (l1 ++ l2) other = Mongo.find_one (l1 ++ d :: l2) other)
    as Hother.
  { intros other Hne. rewrite !find_one_app, find_one_head.
    assert (Mongo.matches other d = false) as ->
      by (apply matches_false; congruence).
    done. }
  exists (l1 ++ l2). split; [|split; [|split; [|split; [done|]]]].
  - unfold DatabaseManager.delete_customer, Mongo.delete_one.
    apply String.eqb_neq in H1, H2. rewrite H1, H2. simpl.
    by rewrite (delete_first_split customer_id l1 l2 d Hout Hid).
  - rewrite !List.length_app. simpl. lia.
  - apply find_one_None. rewrite List.map_app.
    intros [?|?]%elem_of_app; done.
  - unfold get_customer. rewrite !stored_find_one.
    assert (Mongo.find_one (l1 ++ l2) customer_id = None) as ->.
    { apply find_one_None. rewrite List.map_app. intros [?|?]%elem_of_app; done. }
    rewrite (Hother "customer_1") by done.
    by destruct (Mongo.find_one (l1 ++ d :: l2) "customer_1").
Qed.

Lemma replace_one_found (docs l1 l2 : list customer) (customer_id : string)
    (d doc : customer) :
  docs = l1 ++ d :: l2 →
  customer_id ∉ List.map doc_customer_id l1 → doc_customer_id d = customer_id →
  Mongo.replace_one docs customer_id doc
  = if existsb (Mongo.matches (doc_customer_id doc)) (l1 ++ l2)
    then Mongo.duplicate_key
    else Mongo.replaced (l1 ++ doc :: l2) 1.
Proof.
  intros -> Hout Hid. unfold Mongo.replace_one.
  by rewrite (delete_first_split _ _ _ _ Hout Hid),
             (replace_first_split _ _ _ _ _ Hout Hid).
Qed.


(** Ids that are pairwise distinct stay so under [update_customer] and
    under [delete_customer], whatever the arguments. *)
Theorem update_and_delete_keep_ids_unique (docs : list customer)
    (customer_id : string) (c : CustomerSchema.t) :
  NoDup (List.map doc_customer_id docs) →
  (∃ docs', snd (DatabaseManager.update_customer (Some docs) customer_id c)
            = Some docs'
            ∧ List.length docs' = List.length docs
            ∧ NoDup (List.map doc_customer_id docs'))
  ∧ (∃ docs', snd (DatabaseManager.delete_customer (Some docs) customer_id)
              = Some docs'
              ∧ docs' `sublist_of` docs
              ∧ NoDup (List.map doc_customer_id docs')).
Proof.
  intros Hnd. split.
  - unfold DatabaseManager.update_customer.
    destruct (Mongo.find_one docs customer_id) as [d|] eqn:Hfind.
    + apply find_one_Some in Hfind as (l1 & l2 & -> & Hout1 & Hid).
      rewrite (replace_one_found _ l1 l2 customer_id d _ eq_refl Hout1 Hid).
      destruct (existsb _ (l1 ++ l2)) eqn:Hex; simpl.
      * by eexists.
      * eexists. split; [done|]. split.
        { rewrite !List.length_app. simpl. lia. }
        apply existsb_matches in Hex. rewrite List.map_app in Hex, Hnd |- *.
        simpl in *. apply NoDup_app in Hnd as (Hnd1 & Hdisj & Hnd2).
        apply NoDup_cons in Hnd2 as [_ Hnd2].
        apply NoDup_app. split; [done|]. split.
        -- intros x Hx [->|Hin]%elem_of_cons.
           ++ apply Hex, elem_of_app. by left.
           ++ apply (Hdisj x Hx). by right.
        -- apply NoDup_cons. split; [|done].
           intros Hin. apply Hex, elem_of_app. by right.
    + apply find_one_None in Hfind. unfold Mongo.replace_one.
      rewrite (delete_first_None _ _ Hfind). simpl. by eexists.
  - unfold DatabaseManager.delete_customer, Mongo.delete_one.
    destruct (String.eqb customer_id "customer_1" || String.eqb customer_id "customer_2");
      [by eexists|].
    destruct (Mongo.find_one docs customer_id) as [d|] eqn:Hfind.
    + apply find_one_Some in Hfind as (l1 & l2 & -> & Hout1 & Hid).
      rewrite (delete_first_split _ _ _ _ Hout1 Hid). simpl.
      eexists. split; [done|].
      assert (l1 ++ l2 `sublist_of` l1 ++ d :: l2) as Hsub.
      { apply sublist_app; [done|]. by apply sublist_cons. }
      split; [done|].
      apply (sublist_NoDup _ _ Hnd).
      apply (fmap_sublist doc_customer_id), Hsub.
    + apply find_one_None in Hfind. rewrite (delete_first_None _ _ Hfind). simpl.
      by eexists.
Qed.

(** ** The endpoints *)

(** [GET /customers/{customer_id}] never answers 404: the
    [HTTPException] for a customer that is not stored is caught by the
    [except Exception] clause around it and leaves the endpoint with the
    status 500.  The only answers are 200, with the stored document of
    that id, and 500. *)
Theorem get_customer_endpoint_never_404 (collection : option Collection)
    (customer_id : string) :
  Api.status_code (Api.get_customer collection customer_id) ≠ 404%nat
  ∧ (∀ c, collection = Some c → find_one c customer_id = Return None →
       Api.get_customer collection customer_id
       = Api.HTTPException 500
           (Api.database_error
              (Api.http_exception 404 ("Customer " ++ customer_id ++ " not found"))))
  ∧ (∀ docs d, collection = Some (stored docs) →
       Api.get_customer collection customer_id = Api.ok d →
       d ∈ docs ∧ doc_customer_id d = customer_id)
  ∧ (Api.status_code (Api.get_customer collection customer_id) = 200%nat
     ∨ Api.status_code (Api.get_customer collection customer_id) = 500%nat).
Proof.
  unfold Api.get_customer. split; [|split; [|split]].
  - destruct collection as [c|]; [|discriminate].
    destruct (find_one c customer_id) as [[d|]|]; discriminate.
  - intros c -> ->. done.
  - intros docs d -> H. rewrite stored_find_one in H.
    destruct (Mongo.find_one docs customer_id) as [d'|] eqn:Hfind; [|discriminate].
    injection H as ->.
    apply find_one_Some in Hfind as (l1 & l2 & -> & _ & Hid).
    split; [|done]. apply elem_of_app. right. left.
  - destruct collection as [c|]; [|by right].
    destruct (find_one c customer_id) as [[d|]|]; simpl; auto.
Qed.

(** [DELETE /customers/{customer_id}] answers 200 exactly when the id is
    stored and is not one of the two defaults; in every other case it
    answers 404 and the collection is what it was. *)
Theorem delete_endpoint_status (docs : list customer) (customer_id : string) :
  let protected := customer_id = "customer_1" ∨ customer_id = "customer_2" in
  (Api.status_code (fst (Api.delete_customer (Some docs) customer_id)) = 200%nat
   ↔ ¬ protected ∧ customer_id ∈ List.map doc_customer_id docs)
  ∧ (protected ∨ customer_id ∉ List.map doc_customer_id docs →
     Api.status_code (fst (Api.delete_customer (Some docs) customer_id)) = 404%nat
     ∧ snd (Api.delete_customer (Some docs) customer_id) = Some docs).
Proof.
  intros protected. unfold protected.
  unfold Api.delete_customer, DatabaseManager.delete_customer, Mongo.delete_one.
  destruct (String.eqb_spec customer_id "customer_1") as [->|H1]; simpl.
  { split; [|done]. split; [discriminate|]. intros [H _]. destruct H. by left. }
  destruct (String.eqb_spec customer_id "customer_2") as [->|H2]; simpl.
  { split; [|done]. split; [discriminate|]. intros [H _]. destruct H. by right. }
  destruct (Mongo.find_one docs customer_id) as [d|] eqn:Hfind.
  - pose proof Hfind as (l1 & l2 & -> & Hout & Hid)%find_one_Some.
    rewrite (delete_first_split _ _ _ _ Hout Hid). simpl.
    assert (customer_id ∈ List.map doc_customer_id (l1 ++ d :: l2)) as Hin.
    { rewrite List.map_app. apply elem_of_app. right. simpl. rewrite Hid. left. }
    split.
    + split; [|done]. intros _. split; [|done]. intros [?|?]; done.
    + intros [[?|?]|?]; done.
  - apply find_one_None in Hfind.
    rewrite (delete_first_None _ _ Hfind). simpl. split; [|done].
    split; [discriminate|]. intros [_ ?]. done.
Qed.

(** [POST /customers] answers 200 exactly when the id of the graph is
    not stored yet, and [GET /customers/{id}] then answers with the dict
    of the graph; for an id that is stored it answers 400 and writes
    nothing. *)
Theorem create_endpoint_status (inserted_id : list customer → customer → string)
    (docs : list customer) (c : CustomerSchema.t) :
  (CustomerSchema.customer_id c ∉ List.map doc_customer_id docs →
   ∃ body docs',
     Api.create_customer inserted_id (Some docs) c = (Api.ok body, Some docs')
     ∧ Api.get_customer (Some (stored docs')) (CustomerSchema.customer_id c)
       = Api.ok (CustomerSchema.dict c))
  ∧ (CustomerSchema.customer_id c ∈ List.map doc_customer_id docs →
     Api.create_customer inserted_id (Some docs) c
     = (Api.HTTPException 400
          (Api.plain ("Customer " ++ CustomerSchema.customer_id c
                      ++ " already exists")),
        Some docs)).
Proof.
  unfold Api.create_customer, DatabaseManager.create_customer, Mongo.insert_one.
  cbn [CustomerSchema.dict doc_customer_id]. split.
  - intros Hout. pose proof Hout as Hnone%find_one_None.
    pose proof Hout as Hex%existsb_matches. rewrite Hnone, Hex.
    eexists _, _. split; [reflexivity|].
    unfold Api.get_customer. rewrite stored_find_one, find_one_app, Hnone.
    rewrite find_one_head.
    assert (Mongo.matches (CustomerSchema.customer_id c) (CustomerSchema.dict c) = true)
      as -> by (by apply matches_true).
    done.
  - intros Hin.
    destruct (Mongo.find_one docs (CustomerSchema.customer_id c)) as [d|] eqn:Hfind;
      [done|].
    by apply find_one_None in Hfind.
Qed.

(** ** [start_session] and the worker *)

Lemma hset_lookup (redis : gmap string (gmap string string)) (key : string)
    (mapping : gmap string string) (field : string) (v : string) :
  mapping !! field = Some v →
  Redis.hgetall (Redis.hset redis key mapping) key !! field = Some v.
Proof.
  intros H. unfold Redis.hgetall, Redis.hset. rewrite lookup_insert_eq. simpl.
  by apply lookup_union_Some_l.
Qed.

Lemma start_session_cases (collection : option Collection)
    (redis : gmap string (gmap string string)) (env : Api.SessionEnv)
    (customer_id_param user_name_param : option string) :
  let customer_id := default "customer_1" customer_id_param in
  let user_name := default "Guest" user_name_param in
  let key := session_key ("room-" ++ Api.room_uuid env)
                         ("user-" ++ Api.user_uuid env) in
  let answer := Api.start_session collection redis env
                  customer_id_param user_name_param in
  (Api.status_code (fst answer) ≠ 200%nat → snd answer = redis)
  ∧ (Api.status_code (fst answer) = 200%nat →
     (1 <= String.length customer_id <= 50)%nat
     ∧ (1 <= String.length user_name <= 100)%nat
     ∧ (∃ c d, collection = Some c ∧ find_one c customer_id = Return (Some d))
     ∧ Redis.hgetall (snd answer) key !! "action" = Some "start_session"
     ∧ Redis.hgetall (snd answer) key !! "customer_id" = Some customer_id
     ∧ ∀ other, other ≠ key → snd answer !! other = redis !! other).
Proof.
  intros customer_id user_name key answer.
  unfold answer, Api.start_session. fold customer_id user_name.
  destruct (String.eqb_spec customer_id "") as [Hempty|Hne]; simpl;
    [split; [done|discriminate]|].
  destruct (Nat.ltb_spec 50 (String.length customer_id)); simpl;
    [split; [done|discriminate]|].
  destruct (String.eqb_spec user_name "") as [Hempty'|Hne']; simpl;
    [split; [done|discriminate]|].
  destruct (Nat.ltb_spec 100 (String.length user_name)); simpl;
    [split; [done|discriminate]|].
  assert (1 <= String.length customer_id)%nat as Hlen.
  { destruct customer_id; [done|simpl; lia]. }
  assert (1 <= String.length user_name)%nat as Hlen'.
  { destruct user_name; [done|simpl; lia]. }
  destruct collection as [c|]; simpl; [|split; [done|discriminate]].
  destruct (find_one c customer_id) as [[d|]|] eqn:Hfind; simpl;
    try (split; [done|discriminate]).
  destruct (Api.room_created env); simpl; [|split; [done|discriminate]].
  destruct (Api.jwt_token env) as [token|]; simpl; [|split; [done|discriminate]].
  destruct (Api.redis_up env); simpl; [|split; [done|discriminate]].
  split; [done|]. intros _.
  split; [lia|]. split; [lia|]. split; [by exists c, d|].
  fold key. split; [|split].
  - apply hset_lookup. reflexivity.
  - apply hset_lookup. rewrite lookup_insert_ne by done. apply lookup_insert_eq.
  - intros other Hother. unfold Redis.hset. by rewrite lookup_insert_ne.
Qed.

(** [start_session] writes to Redis only when it answers 200.  It then
    has checked that the customer id has 1 to 50 characters, that the
    user name has 1 to 100, and that a document of that id is stored; it
    has set, in the hash under the session key of the new room and the
    new identity, the fields [action] to ["start_session"] and
    [customer_id] to the id; every other key of Redis is as before. *)
Theorem start_session_writes_command (collection : option Collection)
    (redis : gmap string (gmap string string)) (env : Api.SessionEnv)
    (customer_id_param user_name_param : option string) :
  let customer_id := default "customer_1" customer_id_param in
  let user_name := default "Guest" user_name_param in
  let key := session_key ("room-" ++ Api.room_uuid env)
                         ("user-" ++ Api.user_uuid env) in
  let answer := Api.start_session collection redis env
                  customer_id_param user_name_param in
  (Api.status_code (fst answer) ≠ 200%nat → snd answer = redis)
  ∧ (Api.status_code (fst answer) = 200%nat →
     (1 <= String.length customer_id <= 50)%nat
     ∧ (1 <= String.length user_name <= 100)%nat
     ∧ (∃ c d, collection = Some c ∧ find_one c customer_id = Return (Some d))
     ∧ Redis.hgetall (snd answer) key !! "action" = Some "start_session"
     ∧ Redis.hgetall (snd answer) key !! "customer_id" = Some customer_id
     ∧ ∀ other, other ≠ key → snd answer !! other = redis !! other).
Proof. apply start_session_cases. Qed.

(** [start_session] never answers 404 either: for a customer that is not
    stored the answer is 500 with the detail "Database error". *)
Theorem start_session_missing_customer (docs : list customer)
    (redis : gmap string (gmap string string)) (env : Api.SessionEnv)
    (customer_id user_name : string) :
  (1 <= String.length customer_id <= 50)%nat →
  (1 <= String.length user_name <= 100)%nat →
  customer_id ∉ List.map doc_customer_id docs →
  Api.start_session (Some (stored docs)) redis env (Some customer_id) (Some user_name)
  = (Api.HTTPException 500 (Api.plain "Database error"), redis).
Proof.
  intros Hid Hname Hout%find_one_None. unfold Api.start_session. simpl default.
  destruct (String.eqb_spec customer_id "") as [->|_]; [simpl in Hid; lia|].
  destruct (Nat.ltb_spec 50 (String.length customer_id)); [lia|].
  destruct (String.eqb_spec user_name "") as [->|_]; [simpl in Hname; lia|].
  destruct (Nat.ltb_spec 100 (String.length user_name)); [lia|].
  cbn [orb]. by rewrite stored_find_one, Hout.
Qed.

(** What leads to a started session: [entrypoint] reaches
    [session.start] only if Redis answered the ping, the command has the
    action ["start_session"] and a customer id, and [get_customer] gave
    a list that is not empty; the initial agent is then a new instance
    of the class stored under the name of the first agent. *)
Theorem entrypoint_started_only_if (ctx : JobContext) (initial_agent : Agent) :
  entrypoint ctx = started initial_agent →
  redis_ping ctx = true
  ∧ command ctx !! "action" = Some "start_session"
  ∧ ∃ customer_id first rest cls,
      command ctx !! "customer_id" = Some customer_id
      ∧ get_customer (collection ctx) customer_id = Return (first :: rest)
      ∧ agent_factory (first :: rest) !! ad_name first = Some (Some cls)
      ∧ initial_agent = new cls.
Proof.
  unfold entrypoint. destruct (redis_ping ctx); simpl; [|discriminate].
  destruct (command ctx !! "customer_id") as [customer_id|]; [|discriminate].
  destruct (get_customer (collection ctx) customer_id) as [[|first rest]|] eqn:Hget;
    [discriminate| |discriminate].
  destruct (agent_factory (first :: rest) !! ad_name first) as [[cls|]|] eqn:Hcls;
    [|discriminate|discriminate].
  destruct (command ctx !! "action") as [action|]; [|discriminate].
  destruct (String.eqb_spec action "start_session") as [->|]; [|discriminate].
  intros [= <-]. split; [done|]. split; [done|].
  by exists customer_id, first, rest, cls.
Qed.

Lemma entrypoint_starts (ctx : JobContext) (customer_id : string)
    (first : agent_def) (rest : list agent_def) :
  redis_ping ctx = true →
  command ctx !! "customer_id" = Some customer_id →
  command ctx !! "action" = Some "start_session" →
  get_customer (collection ctx) customer_id = Return (first :: rest) →
  ∃ cls, entrypoint ctx = started (new cls)
    ∧ cls_name cls = ad_name first
    ∧ (NoDup (List.map ad_name (first :: rest)) →
       cls = make_agent_class first (handoff_tools first)).
Proof.
  intros Hping Hid Hact Hget.
  destruct (second_pass_filled (first :: rest) (first_pass (first :: rest))
              (ad_name first)) as (d & Hd & Hname & Hlook).
  { left. }
  exists (make_agent_class d (handoff_tools d)).
  split; [|split; [done|]].
  - unfold entrypoint. rewrite Hping, Hid, Hget. simpl negb. cbv iota.
    unfold agent_factory. rewrite Hlook, Hact. done.
  - intros Hnd.
    pose proof (second_pass_NoDup (first :: rest) (first_pass (first :: rest))
                  first Hnd ltac:(left)) as Hfirst.
    rewrite Hfirst in Hlook. congruence.
Qed.

(** From the request to the session.  When [start_session] has answered
    200 for a customer, the worker that serves the new room and the new
    identity, on the same collection, reads the command back and starts
    the session with a new instance of the class of the first agent of
    that customer: the fallback to ["customer_1"] is not taken. *)
Theorem start_session_then_entrypoint (docs : list customer)
    (redis : gmap string (gmap string string)) (env : Api.SessionEnv)
    (customer_id user_name : string) (d : customer)
    (first : agent_def) (rest : list agent_def) :
  Api.status_code
    (fst (Api.start_session (Some (stored docs)) redis env
            (Some customer_id) (Some user_name))) = 200%nat →
  Mongo.find_one docs customer_id = Some d →
  doc_agents d = first :: rest →
  ∃ cls,
    entrypoint
      (Worker.job_context true
         (snd (Api.start_session (Some (stored docs)) redis env
                 (Some customer_id) (Some user_name)))
         ("room-" ++ Api.room_uuid env) ("user-" ++ Api.user_uuid env)
         (Some (stored docs)))
    = started (new cls)
    ∧ cls_name cls = ad_name first
    ∧ (NoDup (List.map ad_name (doc_agents d)) →
       cls = make_agent_class first (handoff_tools first)).
Proof.
  intros Hok Hfind Hagents.
  destruct (start_session_cases (Some (stored docs)) redis env
              (Some customer_id) (Some user_name)) as [_ Hcmd].
  destruct (Hcmd Hok) as (_ & _ & _ & Hact & Hid & _).
  rewrite Hagents.
  apply (entrypoint_starts _ customer_id first rest); try done.
  unfold Worker.job_context, get_customer. cbn [collection].
  by rewrite stored_find_one, Hfind, Hagents.
Qed.

(** When the id of the command is not stored, the worker starts the
    session with the first agent of ["customer_1"], if that customer is
    stored with a list of agents that is not empty; when ["customer_1"]
    is not stored either, [entrypoint] ends in the [IndexError] of
    [agent_schema[0]]. *)
Theorem entrypoint_uses_default_customer (ctx : JobContext)
    (docs : list customer) (customer_id : string) :
  redis_ping ctx = true →
  command ctx !! "customer_id" = Some customer_id →
  command ctx !! "action" = Some "start_session" →
  collection ctx = Some (stored docs) →
  customer_id ∉ List.map doc_customer_id docs →
  (∀ default_customer first rest,
     Mongo.find_one docs "customer_1" = Some default_customer →
     doc_agents default_customer = first :: rest →
     ∃ cls, entrypoint ctx = started (new cls) ∧ cls_name cls = ad_name first)
  ∧ ("customer_1" ∉ List.map doc_customer_id docs →
     entrypoint ctx = raised IndexError).
Proof.
  intros Hping Hid Hact Hcoll Hout%find_one_None. split.
  - intros dflt first rest Hdflt Hagents.
    destruct (entrypoint_starts ctx customer_id first rest) as (cls & ? & ? & _);
      try done; [|by exists cls].
    unfold get_customer. by rewrite Hcoll, !stored_find_one, Hout, Hdflt, Hagents.
  - intros Hnone%find_one_None. unfold entrypoint.
    rewrite Hping, Hid. simpl negb. cbv iota.
    unfold get_customer. by rewrite Hcoll, !stored_find_one, Hout, Hnone.
Qed.

(** ** [Config.validate_required] *)

(** [validate_required] returns [True] exactly when the three LiveKit
    variables are set and not empty.  Otherwise the message of its
    [ValueError] contains the name of a variable exactly when that
    variable is missing. *)
Theorem validate_required_names_missing (self : Config.t) :
  (Config.validate_required self = Config.returns_True
   ↔ Config.truthy (Config.LIVEKIT_URL self) = true
     ∧ Config.truthy (Config.LIVEKIT_API_KEY self) = true
     ∧ Config.truthy (Config.LIVEKIT_API_SECRET self) = true)
  ∧ (∀ msg, Config.validate_required self = Config.raises_ValueError msg →
       Text.contains "LIVEKIT_URL" msg
       = negb (Config.truthy (Config.LIVEKIT_URL self))
       ∧ Text.contains "LIVEKIT_API_KEY" msg
         = negb (Config.truthy (Config.LIVEKIT_API_KEY self))
       ∧ Text.contains "LIVEKIT_API_SECRET" msg
         = negb (Config.truthy (Config.LIVEKIT_API_SECRET self))).
Proof.
  destruct self as [url key secret ? ? ? ? ? ? ? ? ? ? ?].
  unfold Config.validate_required, Config.missing, Config.required_vars.
  cbn [Config.LIVEKIT_URL Config.LIVEKIT_API_KEY Config.LIVEKIT_API_SECRET].
  destruct url as [[|? ?]|], key as [[|? ?]|], secret as [[|? ?]|];
    cbn [foldl Config.truthy negb app];
    (split; [split; [try discriminate; done | intros (? & ? & ?); done]|]);
    intros msg; try discriminate; intros [= <-]; vm_compute; done.
Qed.

(** ** The table of the factory on any list *)






(** ** Handoffs on a validated graph *)

Lemma table_tools_resolve (d : customer) (g : CustomerSchema.t) :
  CustomerSchema.construct d = Pydantic.Valid g →
  ∀ n cls t,
    agent_factory (doc_agents (CustomerSchema.dict g)) !! n = Some (Some cls) →
    t ∈ cls_tools cls →
    resolves (agent_factory (doc_agents (CustomerSchema.dict g))) t.
Proof.
  intros Hg n cls t Hn Ht.
  pose proof (stored_agents_wf d g Hg) as [_ Hwf].
  set (agent_list := doc_agents (CustomerSchema.dict g)) in *.
  destruct (decide (n ∈ List.map ad_name agent_list)) as [Hin|Hout].
  2:{ rewrite agent_factory_dom in Hn by done. discriminate. }
  destruct (second_pass_filled agent_list (first_pass agent_list) n Hin)
    as (a & Ha & _ & Hlook).
  unfold agent_factory in Hn. rewrite Hlook in Hn. injection Hn as <-.
  simpl in Ht. apply list_elem_of_lookup in Ht as [i Hi].
  rewrite handoff_tools_lookup in Hi.
  destruct (ad_edges a !! i) as [e|] eqn:He; [|discriminate]. simpl in Hi.
  assert (e ∈ ad_edges a) as Hin_e by (by eapply list_elem_of_lookup_2).
  destruct (Hwf a e Ha Hin_e) as (Htg & _).
  unfold create_handoff_tool in Hi.
  destruct (_ && _) in Hi; injection Hi as <-; simpl; [|done].
  destruct (second_pass_filled agent_list (first_pass agent_list) _ Htg)
    as (a' & _ & Hname & Hlook').
  exists (make_agent_class a' (handoff_tools a')). split; [done|]. split; [done|].
  unfold handler. fold agent_list. unfold agent_factory. by rewrite Hlook'.
Qed.

(** On the table built from a validated graph, whatever tools are
    called one after the other, starting from an instance of a class of
    the table: the active agent is always a new instance of a class of
    the table, and none of its tools, when called, returns a text
    instead of an agent. *)
Theorem handoffs_stay_in_graph (d : customer) (g : CustomerSchema.t)
    (n : string) (cls : AgentClass) (active : Agent) :
  CustomerSchema.construct d = Pydantic.Valid g →
  agent_factory (doc_agents (CustomerSchema.dict g)) !! n = Some (Some cls) →
  reachable (agent_factory (doc_agents (CustomerSchema.dict g))) (new cls) active →
  (∃ n' cls',
     agent_factory (doc_agents (CustomerSchema.dict g)) !! n' = Some (Some cls')
     ∧ active = new cls')
  ∧ ∀ t s, t ∈ tools active →
      call_tool t (agent_factory (doc_agents (CustomerSchema.dict g)))
      ≠ Some (text s).
Proof.
  intros Hg Hn Hreach.
  set (agent_map := agent_factory (doc_agents (CustomerSchema.dict g))) in *.
  assert (∃ n' cls', agent_map !! n' = Some (Some cls') ∧ active = new cls')
    as Hactive.
  { remember (new cls) as start eqn:Hstart.
    induction Hreach as [current|current active next t _ IH Ht Hcall].
    - by exists n, cls.
    - destruct (IH Hstart) as (n' & cls' & Hn' & ->). simpl in Ht.
      pose proof (table_tools_resolve d g Hg n' cls' t Hn' Ht) as Hres.
      fold agent_map in Hres.
      destruct t as [tg schema|s]; [|discriminate].
      destruct Hres as (cls'' & Hlook & _ & Hcall').
      rewrite Hcall' in Hcall. injection Hcall as <-. by exists tg, cls''. }
  split; [exact Hactive|].
  destruct Hactive as (n' & cls' & Hn' & ->). intros t s Ht. simpl in Ht.
  pose proof (table_tools_resolve d g Hg n' cls' t Hn' Ht) as Hres.
  fold agent_map in Hres.
  destruct t as [tg schema|s']; [|discriminate].
  destruct Hres as (cls'' & _ & _ & ->). discriminate.
Qed.

(** ** What a constructed graph satisfies *)

Lemma AgentConfig_construct_bounds (x : agent_def) (a : AgentConfig.t) :
  AgentConfig.construct x = Pydantic.Valid a →
  (1 <= String.length (AgentConfig.name a) <= 100)%nat
  ∧ Text.re_match_dollar Text.agent_ident (AgentConfig.name a) = true
  ∧ (10 <= String.length (ad_instructions x) <= 10000)%nat
  ∧ AgentConfig.validate_instructions (ad_instructions x)
    = Pydantic.Valid (AgentConfig.instructions a)
  ∧ (1 <= String.length (AgentConfig.on_enter_prompt a) <= 1000)%nat.
Proof.
  unfold AgentConfig.construct. intros H. four_fields_as H n i p es.
  injection H as <-. simpl.
  apply under_Valid, bind_Valid in Hf as (n' & (-> & ? & ?)%str_length_Valid & Hn).
  apply under_Valid, bind_Valid in Hf0 as (i' & (-> & ? & ?)%str_length_Valid & Hi).
  apply under_Valid, str_length_Valid in Hf1 as (-> & ? & ?).
  unfold AgentConfig.validate_agent_name in Hn.
  destruct (Text.re_match_dollar Text.agent_ident (ad_name x)) eqn:Hre;
    simpl in Hn; [|discriminate]. injection Hn as <-.
  done.
Qed.

Lemma CustomerSchema_construct_bounds (d : customer) (g : CustomerSchema.t) :
  CustomerSchema.construct d = Pydantic.Valid g →
  (1 <= String.length (doc_customer_id d) <= 50)%nat
  ∧ (1 <= String.length (CustomerSchema.name g) <= 200)%nat
  ∧ (1 <= String.length (CustomerSchema.description g) <= 1000)%nat.
Proof.
  unfold CustomerSchema.construct. intros H. four_fields_as H i n ds ags.
  injection H as <-. simpl.
  apply under_Valid, bind_Valid in Hf as (i' & (-> & ? & ?)%str_length_Valid & _).
  apply under_Valid, str_length_Valid in Hf0 as (-> & ? & ?).
  apply under_Valid, str_length_Valid in Hf1 as (-> & ? & ?).
  done.
Qed.

(** The bounds of a constructed graph: the id has 1 to 50 characters
    from the allowed set, the name 1 to 200, the description 1 to 1000;
    there are 1 to 20 agents; every agent has a name of 1 to 100
    characters that the pattern of agent names accepts, instructions of
    at most 10000 characters and a prompt of 1 to 1000; every edge has
    the kind ["handoff"] or ["action"], a description of 1 to 500
    characters and a target of 1 to 100 characters that is the name of
    an agent of the graph. *)
Theorem constructed_graph_bounds (d : customer) (g : CustomerSchema.t) :
  CustomerSchema.construct d = Pydantic.Valid g →
  (1 <= String.length (CustomerSchema.customer_id g) <= 50)%nat
  ∧ Text.re_match_dollar Text.id_chars (CustomerSchema.customer_id g) = true
  ∧ (1 <= String.length (CustomerSchema.name g) <= 200)%nat
  ∧ (1 <= String.length (CustomerSchema.description g) <= 1000)%nat
  ∧ (1 <= List.length (CustomerSchema.agents g) <= 20)%nat
  ∧ (∀ a, a ∈ CustomerSchema.agents g →
       (1 <= String.length (AgentConfig.name a) <= 100)%nat
       ∧ Text.re_match_dollar Text.agent_ident (AgentConfig.name a) = true
       ∧ (String.length (AgentConfig.instructions a) <= 10000)%nat
       ∧ (1 <= String.length (AgentConfig.on_enter_prompt a) <= 1000)%nat
       ∧ ∀ e, e ∈ AgentConfig.edges a →
           (AgentEdge.action e = "handoff" ∨ AgentEdge.action e = "action")
           ∧ (1 <= String.length (AgentEdge.description e) <= 500)%nat
           ∧ (1 <= String.length (AgentEdge.target_agent e) <= 100)%nat
           ∧ AgentEdge.target_agent e
             ∈ List.map AgentConfig.name (CustomerSchema.agents g)).
Proof.
  intros Hg.
  pose proof (CustomerSchema_construct_Valid _ _ Hg) as (Hid & Hre & _ & _ & Hv).
  pose proof (CustomerSchema_construct_bounds _ _ Hg) as (Hlen & Hname & Hdesc).
  apply validate_agents_Valid in Hv as (Hitems & Hcount & _ & Htargets).
  split; [rewrite Hid; unfold Text.lower; by rewrite length_map|].
  split; [rewrite Hid; by apply re_match_id_lower|].
  split; [done|]. split; [done|]. split; [done|].
  intros a Ha. pose proof Ha as [k Hk]%list_elem_of_lookup.
  apply list_items_Valid in Hitems.
  destruct (Forall2_lookup_r _ _ _ _ _ Hitems Hk) as (x & _ & Hx).
  pose proof (AgentConfig_construct_bounds _ _ Hx) as (? & ? & [_ Hmax] & Hi & ?).
  split; [done|]. split; [done|]. split.
  { unfold AgentConfig.validate_instructions in Hi.
    destruct (existsb _ _) in Hi; [discriminate|]. injection Hi as <-.
    etrans; [apply length_strip_le|exact Hmax]. }
  split; [done|]. intros e He.
  pose proof (constructed_edge _ _ _ _ Hg Ha He) as Hc.
  apply AgentEdge_construct_Valid in Hc as (_ & _ & ? & ? & ?).
  split; [done|]. split; [done|]. split; [done|]. by eapply Htargets.
Qed.

(** The instructions of every agent of a constructed graph are stored
    without blanks at either end, and contain none of the prohibited
    keywords, whatever the case of the letters. *)
Theorem constructed_instructions_are_clean (d : customer) (g : CustomerSchema.t)
    (a : AgentConfig.t) :
  CustomerSchema.construct d = Pydantic.Valid g →
  a ∈ CustomerSchema.agents g →
  Text.strip (AgentConfig.instructions a) = AgentConfig.instructions a
  ∧ ∀ keyword, keyword ∈ AgentConfig.prohibited_keywords →
      Text.contains keyword (Text.lower (AgentConfig.instructions a)) = false.
Proof.
  intros Hg%constructed_agents [k Hk]%list_elem_of_lookup.
  destruct (Forall2_lookup_r _ _ _ _ _ Hg Hk) as (x & _ & Hx).
  apply AgentConfig_construct_bounds in Hx as (_ & _ & _ & Hi & _).
  unfold AgentConfig.validate_instructions in Hi.
  destruct (existsb _ _) eqn:Hex in Hi; [discriminate|]. injection Hi as <-.
  split; [apply strip_idempotent|].
  intros keyword Hin.
  destruct (Text.contains keyword (Text.lower (Text.strip (ad_instructions x))))
    eqn:Hc; [|done].
  apply contains_lower_strip in Hc.
  assert (existsb (fun keyword => Text.contains keyword (Text.lower (ad_instructions x)))
            AgentConfig.prohibited_keywords = true) as Hex'.
  { apply existsb_exists. exists keyword. split; [by apply list_elem_of_In|done]. }
  congruence.
Qed.

(** Parsing the dict of a constructed graph succeeds exactly when the
    stored instructions of every agent still have ten characters; and
    when it succeeds, it gives the graph back, the agents in the same
    order. *)
Theorem roundtrip_exactly_when_instructions_fit (d : customer)
    (g : CustomerSchema.t) :
  CustomerSchema.construct d = Pydantic.Valid g →
  (CustomerSchema.construct (CustomerSchema.dict g) = Pydantic.Valid g
   ↔ Forall (fun a => (10 <= String.length (AgentConfig.instructions a))%nat)
            (CustomerSchema.agents g))
  ∧ (∀ g', CustomerSchema.construct (CustomerSchema.dict g) = Pydantic.Valid g' →
           g' = g).
Proof.
  intros Hg.
  assert (∀ g', CustomerSchema.construct (CustomerSchema.dict g) = Pydantic.Valid g' →
            Forall (fun a => (10 <= String.length (AgentConfig.instructions a))%nat)
                   (CustomerSchema.agents g)) as Hfit.
  { intros g' Hg'%constructed_agents. simpl in Hg'.
    apply Forall_lookup. intros k a Hk.
    assert (List.map AgentConfig.dict (CustomerSchema.agents g) !! k
            = Some (AgentConfig.dict a)) as Hk'
      by (by rewrite list_lookup_fmap, Hk).
    destruct (Forall2_lookup_l _ _ _ _ _ Hg' Hk') as (a' & _ & Ha').
    by apply AgentConfig_construct_bounds in Ha' as (_ & _ & [? _] & _). }
  split; [split|].
  - apply Hfit.
  - by apply (CustomerSchema_roundtrip d).
  - intros g' Hg'. pose proof (Hfit g' Hg') as Hall.
    pose proof (CustomerSchema_roundtrip d g Hg Hall). congruence.
Qed.

(** ** Names that end in a line feed *)




(** ** The population script *)

Section Populate.
Variable inserted_id : list customer → customer → string.

Lemma turn_cases (ids : gset string) (docs : list customer) (data : customer) :
  Populate.turn inserted_id ids docs data = docs
  ∨ ∃ c, CustomerSchema.construct data = Pydantic.Valid c
         ∧ (doc_customer_id data ∉ ids)
         ∧ (CustomerSchema.customer_id c ∉ List.map doc_customer_id docs)
         ∧ Populate.turn inserted_id ids docs data = docs ++ [CustomerSchema.dict c].
Proof.
  unfold Populate.turn. case_bool_decide as Hskip; [by left|].
  destruct (CustomerSchema.construct data) as [c|] eqn:Hc; [|by left].
  unfold DatabaseManager.create_customer, Mongo.insert_one.
  cbn [CustomerSchema.dict doc_customer_id].
  destruct (Mongo.find_one docs (CustomerSchema.customer_id c)) eqn:Hfind; [by left|].
  pose proof Hfind as Hout%find_one_None.
  pose proof Hout as Hex%existsb_matches. rewrite Hex.
  right. by exists c.
Qed.

(** After its turn an entry is settled: it was skipped for its id, or
    it is not valid, or the id of its graph is stored. *)
Lemma turn_settles (ids : gset string) (docs : list customer) (data : customer) :
  doc_customer_id data ∈ ids
  ∨ Pydantic.is_valid (CustomerSchema.construct data) = false
  ∨ ∃ c, CustomerSchema.construct data = Pydantic.Valid c
         ∧ CustomerSchema.customer_id c
           ∈ List.map doc_customer_id (Populate.turn inserted_id ids docs data).
Proof.
  unfold Populate.turn. case_bool_decide as Hskip; [by left|]. right.
  destruct (CustomerSchema.construct data) as [c|] eqn:Hc; [|by left]. right.
  exists c. split; [done|].
  unfold DatabaseManager.create_customer, Mongo.insert_one.
  cbn [CustomerSchema.dict doc_customer_id].
  destruct (Mongo.find_one docs (CustomerSchema.customer_id c)) eqn:Hfind.
  - destruct (decide (CustomerSchema.customer_id c ∈ List.map doc_customer_id docs));
      [done|]. apply find_one_None in n. congruence.
  - pose proof Hfind as Hout%find_one_None.
    pose proof Hout as Hex%existsb_matches. rewrite Hex.
    rewrite List.map_app. apply elem_of_app. right. left.
Qed.

Lemma fold_turn_prefix (ids : gset string) (CUSTOMERS docs : list customer) :
  docs `prefix_of` foldl (Populate.turn inserted_id ids) docs CUSTOMERS.
Proof.
  revert docs. induction CUSTOMERS as [|data rest IH]; intros docs; [done|].
  cbn [foldl]. etrans; [|apply IH].
  destruct (turn_cases ids docs data) as [->|(c & _ & _ & _ & ->)]; [done|].
  by apply prefix_app_r.
Qed.

Lemma prefix_ids (docs docs' : list customer) (customer_id : string) :
  docs `prefix_of` docs' →
  customer_id ∈ List.map doc_customer_id docs →
  customer_id ∈ List.map doc_customer_id docs'.
Proof.
  intros [k ->] H. rewrite List.map_app. apply elem_of_app. by left.
Qed.

Lemma fold_turn_settles (ids : gset string) (CUSTOMERS docs : list customer)
    (data : customer) :
  data ∈ CUSTOMERS →
  doc_customer_id data ∈ ids
  ∨ Pydantic.is_valid (CustomerSchema.construct data) = false
  ∨ ∃ c, CustomerSchema.construct data = Pydantic.Valid c
         ∧ CustomerSchema.customer_id c
           ∈ List.map doc_customer_id
               (foldl (Populate.turn inserted_id ids) docs CUSTOMERS).
Proof.
  revert docs. induction CUSTOMERS as [|x rest IH]; intros docs Hin.
  - by apply elem_of_nil in Hin.
  - cbn [foldl]. apply elem_of_cons in Hin as [->|Hin]; [|by apply IH].
    destruct (turn_settles ids docs x) as [?|[?|(c & Hc & Hid)]]; [by left|by right; left|].
    right. right. exists c. split; [done|].
    eapply prefix_ids; [apply fold_turn_prefix|done].
Qed.

Lemma fold_turn_fixed (ids : gset string) (CUSTOMERS docs : list customer) :
  (∀ data, data ∈ CUSTOMERS → Populate.turn inserted_id ids docs data = docs) →
  foldl (Populate.turn inserted_id ids) docs CUSTOMERS = docs.
Proof.
  induction CUSTOMERS as [|x rest IH]; intros H; [done|].
  cbn [foldl]. rewrite (H x) by left. apply IH. intros data Hd. apply H. by right.
Qed.

Lemma firstn_prefix_ids (n : nat) (docs docs' : list customer) (customer_id : string) :
  docs `prefix_of` docs' →
  customer_id ∈ List.map doc_customer_id (firstn n docs) →
  customer_id ∈ List.map doc_customer_id (firstn n docs').
Proof.
  intros [k ->] H. rewrite firstn_app, List.map_app. apply elem_of_app. by left.
Qed.

Lemma fold_turn_members (ids : gset string) (CUSTOMERS docs : list customer)
    (d : customer) :
  d ∈ foldl (Populate.turn inserted_id ids) docs CUSTOMERS →
  d ∈ docs
  ∨ ∃ data c, data ∈ CUSTOMERS
              ∧ CustomerSchema.construct data = Pydantic.Valid c
              ∧ d = CustomerSchema.dict c.
Proof.
  revert docs. induction CUSTOMERS as [|x rest IH]; intros docs Hd; [by left|].
  cbn [foldl] in Hd. apply IH in Hd as [Hd|(data & c & ? & ? & ?)].
  - destruct (turn_cases ids docs x) as [Heq|(c & Hc & _ & _ & Heq)];
      rewrite Heq in Hd; [by left|].
    apply elem_of_app in Hd as [?|Hd]; [by left|].
    apply list_elem_of_singleton in Hd as ->.
    right. exists x, c. split; [left|done].
  - right. exists data, c. split; [by right|done].
Qed.

Lemma fold_turn_NoDup (ids : gset string) (CUSTOMERS docs : list customer) :
  NoDup (List.map doc_customer_id docs) →
  NoDup (List.map doc_customer_id
           (foldl (Populate.turn inserted_id ids) docs CUSTOMERS)).
Proof.
  revert docs. induction CUSTOMERS as [|x rest IH]; intros docs Hnd; [done|].
  cbn [foldl]. apply IH.
  destruct (turn_cases ids docs x) as [->|(c & _ & _ & Hout & ->)]; [done|].
  rewrite List.map_app. apply NoDup_app. split; [done|].
  split; [|apply NoDup_singleton].
  intros y Hy [->|H%elem_of_nil]%elem_of_cons; done.
Qed.

(** The script only adds: the documents that were stored stay in place;
    every document it adds is the dict of a graph constructed from an
    entry of [CUSTOMERS]; and ids that were pairwise distinct stay so. *)
Theorem populate_only_adds (CUSTOMERS docs : list customer) :
  docs `prefix_of` Populate.main inserted_id CUSTOMERS docs
  ∧ (∀ d, d ∈ Populate.main inserted_id CUSTOMERS docs →
       d ∈ docs
       ∨ ∃ data c, data ∈ CUSTOMERS
                   ∧ CustomerSchema.construct data = Pydantic.Valid c
                   ∧ d = CustomerSchema.dict c)
  ∧ (NoDup (List.map doc_customer_id docs) →
     NoDup (List.map doc_customer_id (Populate.main inserted_id CUSTOMERS docs))).
Proof.
  unfold Populate.main. simpl. split; [apply fold_turn_prefix|].
  split; [apply fold_turn_members|apply fold_turn_NoDup].
Qed.

(** Running the script a second time changes nothing. *)
Theorem populate_idempotent (CUSTOMERS docs : list customer) :
  Populate.main inserted_id CUSTOMERS (Populate.main inserted_id CUSTOMERS docs)
  = Populate.main inserted_id CUSTOMERS docs.
Proof.
  unfold Populate.main. simpl.
  set (ids0 := list_to_set (List.map doc_customer_id (firstn 100 docs)) : gset string).
  set (docs1 := foldl (Populate.turn inserted_id ids0) docs CUSTOMERS).
  set (ids1 := list_to_set (List.map doc_customer_id (firstn 100 docs1)) : gset string).
  apply fold_turn_fixed. intros data Hdata.
  unfold Populate.turn. case_bool_decide as Hskip; [done|].
  destruct (fold_turn_settles ids0 CUSTOMERS docs data Hdata)
    as [Hin|[Hinv|(c & Hc & Hstored)]].
  - destruct Hskip. unfold ids0 in Hin. unfold ids1.
    apply elem_of_list_to_set in Hin. apply elem_of_list_to_set.
    eapply firstn_prefix_ids; [apply fold_turn_prefix|done].
  - by destruct (CustomerSchema.construct data).
  - rewrite Hc. fold docs1 in Hstored.
    unfold DatabaseManager.create_customer.
    destruct (Mongo.find_one docs1 (CustomerSchema.customer_id c)) eqn:Hfind; [done|].
    by apply find_one_None in Hfind.
Qed.

End Populate.

(* ===================================================================== *)
(** * The further statements at the samples                               *)
(* ===================================================================== *)

Lemma connect_succeeds_after_backoff_witness :
  Connect.connect 3 Fixture.second_try = (Connect.returns true, [1%Z])
  ∧ Connect.total (snd (Connect.connect 3 Fixture.second_try)) = 1%Z.
Proof.
  apply (connect_succeeds_after_backoff 3 1 Fixture.second_try).
  - lia.
  - intros j Hj. assert (j = 0%Z) as -> by lia. reflexivity.
  - reflexivity.
Defined.

Lemma connect_gives_up_after_max_retries_witness :
  Connect.connect 3 Fixture.down = (Connect.raises_ConnectionError, [1%Z; 2%Z])
  ∧ Connect.total (snd (Connect.connect 3 Fixture.down)) = 3%Z.
Proof.
  apply (connect_gives_up_after_max_retries 3 Fixture.down).
  - lia.
  - intros j _. reflexivity.
Defined.

Lemma create_customer_then_get_witness :
  Mongo.find_one [Sample.customer_1] "acme-01" = None
  ∧ get_customer (Some (stored ([Sample.customer_1] ++ [Fixture.acme_doc]))) "acme-01"
    = Return [Sample.greeter; Sample.billing].
Proof.
  split; [reflexivity|].
  destruct (create_customer_then_get Fixture.oid [Sample.customer_1]
              Sample.acme_graph) as (oid & _ & Hget & _); [reflexivity|].
  exact Hget.
Defined.

Lemma create_customer_keeps_documents_witness :
  DatabaseManager.create_customer Fixture.oid (Some [Fixture.acme_doc])
    Sample.acme_graph
  = (DatabaseManager.Failed
       (DatabaseManager.ValueError "Customer acme-01 already exists"),
     Some [Fixture.acme_doc]).
Proof.
  apply (proj2 (create_customer_keeps_documents Fixture.oid [Fixture.acme_doc]
                  Sample.acme_graph)).
  simpl. left.
Defined.

Lemma delete_customer_keeps_defaults_witness :
  DatabaseManager.delete_customer (Some [Sample.customer_1]) "customer_1"
  = (DatabaseManager.Failed
       (DatabaseManager.ValueError "Cannot delete default customer schemas"),
     Some [Sample.customer_1]).
Proof.
  apply (proj1 (delete_customer_keeps_defaults [Sample.customer_1] [])).
  by left.
Defined.

Lemma delete_customer_then_get_witness :
  ∃ docs',
    DatabaseManager.delete_customer
      (Some [Sample.customer_1; Fixture.acme_doc]) "acme-01"
    = (DatabaseManager.Done true, Some docs')
    ∧ get_customer (Some (stored docs')) "acme-01"
      = Return (doc_agents Sample.customer_1).
Proof.
  destruct (delete_customer_then_get [Sample.customer_1; Fixture.acme_doc]
              "acme-01" Fixture.acme_doc)
    as (docs' & Hdel & _ & _ & _ & Hget).
  - apply (bool_decide_unpack _). vm_compute. exact I.
  - reflexivity.
  - discriminate.
  - discriminate.
  - exists docs'. split; [exact Hdel|exact Hget].
Defined.


Lemma update_and_delete_keep_ids_unique_witness :
  ∃ docs',
    snd (DatabaseManager.delete_customer
           (Some [Sample.customer_1; Fixture.acme_doc]) "acme-01") = Some docs'
    ∧ NoDup (List.map doc_customer_id docs').
Proof.
  destruct (update_and_delete_keep_ids_unique
              [Sample.customer_1; Fixture.acme_doc] "acme-01" Fixture.acme_moved)
    as [_ (docs' & Hdel & _ & Hnd)].
  - apply (bool_decide_unpack _). vm_compute. exact I.
  - exists docs'. split; [exact Hdel|exact Hnd].
Defined.

Lemma get_customer_endpoint_never_404_witness :
  Api.get_customer (Some (stored [Sample.customer_1])) "acme-01"
  = Api.HTTPException 500
      (Api.database_error (Api.http_exception 404 "Customer acme-01 not found")).
Proof.
  apply (proj1 (proj2 (get_customer_endpoint_never_404
                         (Some (stored [Sample.customer_1])) "acme-01"))
           (stored [Sample.customer_1])); reflexivity.
Defined.

Lemma delete_endpoint_status_witness :
  Api.status_code
    (fst (Api.delete_customer (Some [Sample.customer_1]) "customer_1")) = 404%nat
  ∧ snd (Api.delete_customer (Some [Sample.customer_1]) "customer_1")
    = Some [Sample.customer_1].
Proof.
  apply (proj2 (delete_endpoint_status [Sample.customer_1] "customer_1")).
  left. by left.
Defined.

Lemma create_endpoint_status_witness :
  Api.create_customer Fixture.oid (Some [Fixture.acme_doc]) Sample.acme_graph
  = (Api.HTTPException 400 (Api.plain "Customer acme-01 already exists"),
     Some [Fixture.acme_doc]).
Proof.
  apply (proj2 (create_endpoint_status Fixture.oid [Fixture.acme_doc]
                  Sample.acme_graph)).
  simpl. left.
Defined.

Lemma start_session_writes_command_witness :
  Redis.hgetall
    (snd (Api.start_session (Some (stored [Fixture.acme_doc])) ∅ Fixture.env
            (Some "acme-01") (Some "Ann")))
    (session_key "room-r-1" "user-u-1") !! "customer_id"
  = Some "acme-01".
Proof.
  destruct (start_session_writes_command (Some (stored [Fixture.acme_doc])) ∅
              Fixture.env (Some "acme-01") (Some "Ann")) as [_ Hok].
  destruct Hok as (_ & _ & _ & _ & Hid & _); [vm_compute; reflexivity|].
  exact Hid.
Defined.

Lemma start_session_missing_customer_witness :
  Api.start_session (Some (stored [])) ∅ Fixture.env (Some "acme-01") (Some "Ann")
  = (Api.HTTPException 500 (Api.plain "Database error"), ∅).
Proof.
  apply (start_session_missing_customer [] ∅ Fixture.env "acme-01" "Ann").
  - simpl. lia.
  - simpl. lia.
  - simpl. intros H. by apply elem_of_nil in H.
Defined.

Lemma entrypoint_started_only_if_witness :
  entrypoint (Sample.job [Fixture.acme_doc] "acme-01")
  = started (new (make_agent_class Sample.greeter (handoff_tools Sample.greeter)))
  ∧ command (Sample.job [Fixture.acme_doc] "acme-01") !! "action"
    = Some "start_session".
Proof.
  assert (entrypoint (Sample.job [Fixture.acme_doc] "acme-01")
          = started (new (make_agent_class Sample.greeter
                            (handoff_tools Sample.greeter)))) as Hrun
    by (vm_compute; reflexivity).
  split; [exact Hrun|].
  exact (proj1 (proj2 (entrypoint_started_only_if _ _ Hrun))).
Defined.

Lemma start_session_then_entrypoint_witness :
  ∃ cls,
    entrypoint
      (Worker.job_context true
         (snd (Api.start_session (Some (stored [Fixture.acme_doc])) ∅ Fixture.env
                 (Some "acme-01") (Some "Ann")))
         ("room-" ++ Api.room_uuid Fixture.env)
         ("user-" ++ Api.user_uuid Fixture.env)
         (Some (stored [Fixture.acme_doc])))
    = started (new cls)
    ∧ cls_name cls = "Greeter".
Proof.
  destruct (start_session_then_entrypoint [Fixture.acme_doc] ∅ Fixture.env
              "acme-01" "Ann" Fixture.acme_doc Sample.greeter [Sample.billing])
    as (cls & Hrun & Hname & _).
  - vm_compute. reflexivity.
  - reflexivity.
  - reflexivity.
  - exists cls. split; [exact Hrun|exact Hname].
Defined.

Lemma entrypoint_uses_default_customer_witness :
  ∃ cls, entrypoint (Sample.job [Sample.customer_1] "acme-01") = started (new cls)
         ∧ cls_name cls = "Greeter".
Proof.
  destruct (entrypoint_uses_default_customer
              (Sample.job [Sample.customer_1] "acme-01") [Sample.customer_1]
              "acme-01") as [Hdefault _].
  - reflexivity.
  - reflexivity.
  - reflexivity.
  - reflexivity.
  - simpl. intros H. apply elem_of_cons in H as [H|H]; [discriminate|].
    by apply elem_of_nil in H.
  - apply (Hdefault Sample.customer_1 Sample.greeter [Sample.billing]); reflexivity.
Defined.

Lemma validate_required_names_missing_witness :
  Config.validate_required Fixture.config
  = Config.raises_ValueError
      "Missing required environment variables: LIVEKIT_API_KEY"
  ∧ Text.contains "LIVEKIT_API_KEY"
      "Missing required environment variables: LIVEKIT_API_KEY" = true
  ∧ Text.contains "LIVEKIT_URL"
      "Missing required environment variables: LIVEKIT_API_KEY" = false.
Proof.
  assert (Config.validate_required Fixture.config
          = Config.raises_ValueError
              "Missing required environment variables: LIVEKIT_API_KEY") as Hrun
    by reflexivity.
  split; [exact Hrun|].
  destruct (proj2 (validate_required_names_missing Fixture.config) _ Hrun)
    as (Hurl & Hkey & _).
  split; [exact Hkey|exact Hurl].
Defined.



Lemma handoffs_stay_in_graph_witness :
  CustomerSchema.construct Sample.acme = Pydantic.Valid Sample.acme_graph
  ∧ ∃ n' cls',
      agent_factory (doc_agents (CustomerSchema.dict Sample.acme_graph)) !! n'
      = Some (Some cls')
      ∧ new (make_agent_class Sample.billing (handoff_tools Sample.billing))
        = new cls'.
Proof.
  assert (CustomerSchema.construct Sample.acme = Pydantic.Valid Sample.acme_graph)
    as Hc by (vm_compute; reflexivity).
  split; [exact Hc|].
  apply (handoffs_stay_in_graph Sample.acme Sample.acme_graph "Greeter"
           (make_agent_class Sample.greeter (handoff_tools Sample.greeter))).
  - exact Hc.
  - vm_compute. reflexivity.
  - eapply (reachable_handoff _ _ _ _
              (function_tool "Billing"
                 {| rs_name := "to_billing";
                    rs_description :=
                      "Transfer the caller. Will handoff to: Billing" |})).
    + apply reachable_here.
    + simpl. left.
    + vm_compute. reflexivity.
Defined.

Lemma constructed_graph_bounds_witness :
  (1 <= List.length (CustomerSchema.agents Sample.acme_graph) <= 20)%nat.
Proof.
  apply (constructed_graph_bounds Sample.acme Sample.acme_graph).
  vm_compute. reflexivity.
Defined.

Lemma constructed_instructions_are_clean_witness :
  Text.strip (AgentConfig.instructions Sample.greeter_model)
  = AgentConfig.instructions Sample.greeter_model.
Proof.
  apply (constructed_instructions_are_clean Sample.acme Sample.acme_graph
           Sample.greeter_model).
  - vm_compute. reflexivity.
  - simpl. left.
Defined.

Lemma roundtrip_exactly_when_instructions_fit_witness :
  (CustomerSchema.construct (CustomerSchema.dict Sample.acme_graph)
   = Pydantic.Valid Sample.acme_graph
   ↔ Forall (fun a => (10 <= String.length (AgentConfig.instructions a))%nat)
            (CustomerSchema.agents Sample.acme_graph))
  ∧ (CustomerSchema.construct (CustomerSchema.dict Sample.padded_graph)
     = Pydantic.Valid Sample.padded_graph
     ↔ Forall (fun a => (10 <= String.length (AgentConfig.instructions a))%nat)
              (CustomerSchema.agents Sample.padded_graph)).
Proof.
  split.
  - apply (roundtrip_exactly_when_instructions_fit Sample.acme Sample.acme_graph).
    vm_compute. reflexivity.
  - apply (roundtrip_exactly_when_instructions_fit Sample.padded Sample.padded_graph).
    vm_compute. reflexivity.
Defined.


Lemma populate_only_adds_witness :
  NoDup (List.map doc_customer_id
           (Populate.main Fixture.oid [Sample.acme; Sample.dangling]
              [Sample.customer_1])).
Proof.
  apply (populate_only_adds Fixture.oid [Sample.acme; Sample.dangling]
           [Sample.customer_1]).
  apply (bool_decide_unpack _). vm_compute. exact I.
Defined.
